(** * IdleRPG Slack bot: presence accounting and command dispatch

    A shallow embedding of [src/idlerpgslack/bot.py].  The module [api] it
    imports is not among the sources and is taken as an oracle; the client
    class and the bot of [src/idlerpg-slack.py] are embedded on their own
    in [Legacy].

    Conventions of the model.
    - Python strings are [string]s whose characters stand for the code
      points below 256.
    - [time.time()] readings and the per-user totals are exact numbers,
      modelled in [Z]; a record says whether its total is still the [int]
      it started with or a [float].  What rounding does to the totals is
      the matter of [Binary64], where the accounting is embedded once more
      over the floats of the machine.
    - Every user record (the inner dict of [self._users]) is an object of a
      store; a dict of users maps ids to references, in insertion order.
    - The Slack API and the wall clock are oracles indexed by the number of
      external calls made so far. *)

From stdpp Require Import gmap strings list pretty.
From Stdlib Require Import ZArith Ascii.
From Stdlib Require Floats.
From Stdlib Require Import PrimFloat.


(** ** Python string methods used by the bot *)

Module Str.

(** [str.isspace] on one code point below 256. *)
Definition isspace (c : ascii) : bool :=
  let n := N_of_ascii c in
  ((9 <=? n) && (n <=? 13) || (28 <=? n) && (n <=? 32)
   || (n =? 133) || (n =? 160))%N.

(** [str.lower] on one code point below 256. *)
Definition lower_char (c : ascii) : ascii :=
  let n := N_of_ascii c in
  if ((65 <=? n) && (n <=? 90)
      || (192 <=? n) && (n <=? 222) && negb (n =? 215))%N
  then ascii_of_N (n + 32) else c.

Fixpoint lower (s : string) : string :=
  match s with
  | EmptyString => EmptyString
  | String c r => String (lower_char c) (lower r)
  end.

(** [text.startswith(p)] *)
Definition startswith (text p : string) : bool := String.prefix p text.

(** [text.split()]: [cur] is the chunk being read. *)
Fixpoint split_from (cur : string) (s : string) : list string :=
  match s with
  | EmptyString => if String.eqb cur "" then [] else [cur]
  | String c r =>
      if isspace c
      then (if String.eqb cur "" then split_from "" r
            else cur :: split_from "" r)
      else split_from (cur +:+ String c "") r
  end.

Definition split (s : string) : list string := split_from "" s.

(** ['\n'.join(l)] *)
Fixpoint join (sep : string) (l : list string) : string :=
  match l with
  | [] => ""
  | [x] => x
  | x :: r => x +:+ sep +:+ join sep r
  end.

Definition newline : string := String (ascii_of_N 10) "".

End Str.

(** ** Python dicts with insertion order *)

Module Dict.

Section Ops.
Context {V : Type}.

Fixpoint get (k : string) (d : list (string * V)) : option V :=
  match d with
  | [] => None
  | (k', v) :: r => if String.eqb k k' then Some v else get k r
  end.

(** [k in d] *)
Definition mem (k : string) (d : list (string * V)) : bool :=
  match get k d with Some _ => true | None => false end.

(** [d[k] = v]: an existing key keeps its place, a new one goes last. *)
Fixpoint set (k : string) (v : V) (d : list (string * V))
  : list (string * V) :=
  match d with
  | [] => [(k, v)]
  | (k', v') :: r =>
      if String.eqb k k' then (k, v) :: r else (k', v') :: set k v r
  end.

Definition keys (d : list (string * V)) : list string := d.*1.
Definition values (d : list (string * V)) : list V := d.*2.
End Ops.

End Dict.

(** ** Data *)

(** [user['profile']] as the Slack API returns it. *)
Record Profile := mkProfile {
  display_name : string;
  real_name : string;
  email : string
}.

(** The answer of [users.info]. *)
Record UserInfo := mkUserInfo {
  is_bot : bool;
  info_profile : Profile
}.

(** One record of [self._users].  Times and totals are read as exact
    numbers of seconds; [total_is_float] tells the [int] that a new record
    holds, [0], from the [float] that the total is once a session has been
    closed. *)
Record User := mkUser {
  profile : Profile;
  active : bool;
  first_seen : option Z;
  total : Z;
  total_is_float : bool
}.

Definition with_active (b : bool) (u : User) : User :=
  mkUser (profile u) b (first_seen u) (total u) (total_is_float u).
Definition with_first_seen (t : option Z) (u : User) : User :=
  mkUser (profile u) (active u) t (total u) (total_is_float u).
(** [user['total'] = x] for a float [x]. *)
Definition with_total (x : Z) (u : User) : User :=
  mkUser (profile u) (active u) (first_seen u) x true.

(** A dict of users: user id to the reference of its record. *)
Abbreviation Users := (list (string * nat)).

(** An RTM event: a JSON object with string fields. *)
Abbreviation Event := (gmap string string).

Inductive Exn :=
| KeyError (key : string)
| TypeError
| IndexError
| RuntimeError
| SystemError.

(** The fields of [IdleRpgBot]. *)
Record Bot := mkBot {
  _name : option string;
  _id : option string;
  _rpg_channel_id : option string;
  _rpg_channel_name : string;
  _db_filename : string;
  _users : Users
}.

(** The bot together with what it can reach: the store of user records,
    the files written by [db], the messages posted so far (latest last)
    and the number of external calls made. *)
Record State := mkState {
  self : Bot;
  heap : list User;
  disk : gmap string (list (string * User));
  sent : list (string * string);
  tick : nat
}.

Definition set_self (b : Bot) (s : State) : State :=
  mkState b (heap s) (disk s) (sent s) (tick s).
Definition set_heap (h : list User) (s : State) : State :=
  mkState (self s) h (disk s) (sent s) (tick s).
Definition set_disk (d : gmap string (list (string * User))) (s : State)
  : State := mkState (self s) (heap s) d (sent s) (tick s).
Definition set_sent (m : list (string * string)) (s : State) : State :=
  mkState (self s) (heap s) (disk s) m (tick s).
Definition next_tick (s : State) : State :=
  mkState (self s) (heap s) (disk s) (sent s) (S (tick s)).

Definition bot_set_users (us : Users) (b : Bot) : Bot :=
  mkBot (_name b) (_id b) (_rpg_channel_id b) (_rpg_channel_name b)
        (_db_filename b) us.
Definition bot_set_identity (name id : string) (b : Bot) : Bot :=
  mkBot (Some name) (Some id) (_rpg_channel_id b) (_rpg_channel_name b)
        (_db_filename b) (_users b).
Definition bot_set_channel (c : string) (b : Bot) : Bot :=
  mkBot (_name b) (_id b) (Some c) (_rpg_channel_name b)
        (_db_filename b) (_users b).

(** What the bot talks to.  Each answer may depend on the moment of the
    call; [None] is a call that Slack answers with [ok = false].
    [login_self] is the pair (id, name) of [login_data['self']]. *)
Record Env := mkEnv {
  clock : nat -> Z;
  users_info : nat -> string -> option UserInfo;
  users_getPresence : nat -> string -> option bool;
  conversations_members : nat -> option string -> option (list string);
  channels_list : nat -> string -> option string;
  chat_postMessage : nat -> string -> string -> bool;
  login_self : string * string
}.

(** ** Statements with state and exceptions *)

Inductive Res (A : Type) :=
| Ok (a : A) (s : State)
| Raise (e : Exn) (s : State).
Arguments Ok {A} a s.
Arguments Raise {A} e s.

Definition state_of {A} (r : Res A) : State :=
  match r with Ok _ s => s | Raise _ s => s end.

Definition M (A : Type) : Type := State -> Res A.

Definition ret {A} (a : A) : M A := fun s => Ok a s.
Definition raise {A} (e : Exn) : M A := fun s => Raise e s.
Definition bind {A B} (c : M A) (k : A -> M B) : M B :=
  fun s => match c s with
           | Ok a s' => k a s'
           | Raise e s' => Raise e s'
           end.
Definition gets {A} (f : State -> A) : M A := fun s => Ok (f s) s.
Definition modify (f : State -> State) : M unit := fun s => Ok tt (f s).

Declare Scope py_scope.
Delimit Scope py_scope with py.
Notation "x <- c ;; k" := (bind c (fun x => k))
  (at level 100, c at next level, right associativity) : py_scope.
Notation "c ;;; k" := (bind c (fun _ => k))
  (at level 100, right associativity) : py_scope.
Local Open Scope py_scope.

(** [d[k]] on an event. *)
Definition event_getitem (event : Event) (k : string) : M string :=
  match event !! k with
  | Some v => ret v
  | None => raise (KeyError k)
  end.

(** [users[user_id]]: the reference held under the key. *)
Definition getitem (users : Users) (user_id : string) : M nat :=
  match Dict.get user_id users with
  | Some l => ret l
  | None => raise (KeyError user_id)
  end.

(** Reading the record behind a reference. *)
Definition deref (l : nat) : M User :=
  fun s => match heap s !! l with
           | Some u => Ok u s
           | None => Raise SystemError s
           end.

(** [obj[field] = value] on the record behind a reference. *)
Definition setattr (l : nat) (f : User -> User) : M unit :=
  u <- deref l ;; modify (fun s => set_heap (<[l := f u]> (heap s)) s).

(** A new record object. *)
Definition alloc (u : User) : M nat :=
  fun s => Ok (length (heap s)) (set_heap (heap s ++ [u]) s).

(** [now - first_seen], which needs a number on the right. *)
Definition elapsed_since (now : Z) (t0 : option Z) : M Z :=
  match t0 with
  | Some t => ret (now - t)%Z
  | None => raise TypeError
  end.

(** ** The text of a number *)

Module PyNum.

(** The whole number that a float holds in place of [n >= 0]: the nearest
    one with 53 significant bits, the even one of two. *)
Definition round53 (n : Z) : Z :=
  if (n <? 2 ^ 53)%Z then n
  else
    let sh := (Z.log2 n - 52)%Z in
    let q := Z.shiftr n sh in
    let r := (n - Z.shiftl q sh)%Z in
    let half := Z.shiftl 1 (sh - 1) in
    let q' := if (half <? r)%Z || ((r =? half)%Z && Z.odd q)
              then (q + 1)%Z else q in
    Z.shiftl q' sh.

(** [n > 0] rounded to [k] significant decimal digits. *)
Definition round_dec (n : Z) (k : nat) : Z :=
  let d := String.length (pretty n) in
  if (d <=? k)%nat then n
  else let p := (10 ^ Z.of_nat (d - k))%Z in ((n + p / 2) / p * p)%Z.

(** The decimal with the fewest significant digits, [k] or more, that a
    float reads back as [x]. *)
Fixpoint shortest (x : Z) (k fuel : nat) : Z :=
  match fuel with
  | O => x
  | S f =>
      let m := round_dec x k in
      if (round53 m =? x)%Z then m else shortest x (S k) f
  end.

Fixpoint rstrip0 (s : string) : string :=
  match s with
  | EmptyString => EmptyString
  | String c r =>
      match rstrip0 r with
      | EmptyString => if Ascii.eqb c "0" then EmptyString
                       else String c EmptyString
      | r' => String c r'
      end
  end.

(** [repr] of a float of whole value [a >= 10^16]: the digits, a point
    after the first one, and the exponent with two digits or more. *)
Definition exponent_form (a : Z) : string :=
  let ds := pretty (shortest (round53 a) 1 17) in
  let e := (String.length ds - 1)%nat in
  match rstrip0 ds with
  | String c rest =>
      String c (match rest with EmptyString => rest | _ => "." +:+ rest end)
      +:+ "e+" +:+ (if (e <? 10)%nat then "0" else "") +:+ pretty e
  | EmptyString => ds
  end.

(** [str(x)] for a float [x] of whole value [n]: [30.0], [-60.0], and
    [1e+16] from ten to the sixteenth on. *)
Definition str_float (n : Z) : string :=
  let a := Z.abs n in
  (if (n <? 0)%Z then "-" else "") +:+
  (if (a <? 10 ^ 16)%Z then pretty a +:+ ".0" else exponent_form a).

(** [str(x)] for a number of the ledger, an [int] or a [float]. *)
Definition str (is_float : bool) (n : Z) : string :=
  if is_float then str_float n else pretty n.

End PyNum.

(** ** The program *)

Section Program.
Variable env : Env.

(** [time.time()] *)
Definition time_time : M Z :=
  fun s => Ok (clock env (tick s)) (next_tick s).

(** [SlackApiClient]: every method is one web call; a call answered with
    [ok = false] raises. *)
Definition api_get_user_info (user_id : string) : M UserInfo :=
  fun s => match users_info env (tick s) user_id with
           | Some user => Ok user (next_tick s)
           | None => Raise RuntimeError (next_tick s)
           end.

Definition api_is_user_active (user_id : string) : M bool :=
  fun s => match users_getPresence env (tick s) user_id with
           | Some b => Ok b (next_tick s)
           | None => Raise RuntimeError (next_tick s)
           end.

Definition api_get_channel_users (channel_id : option string)
  : M (list string) :=
  fun s => match conversations_members env (tick s) channel_id with
           | Some ids => Ok ids (next_tick s)
           | None => Raise RuntimeError (next_tick s)
           end.

Definition api_get_channel (name : string) : M string :=
  fun s => match channels_list env (tick s) name with
           | Some c => Ok c (next_tick s)
           | None => Raise RuntimeError (next_tick s)
           end.

Definition api_send_message (channel_id message : string) : M unit :=
  fun s => if chat_postMessage env (tick s) channel_id message
           then Ok tt (next_tick
                         (set_sent (sent s ++ [(channel_id, message)]) s))
           else Raise RuntimeError (next_tick s).

Definition api_get_self : M (string * string) := ret (login_self env).

(** Modelled from the spec: the module [db] is not among the sources.
    [db.save(filename, users)] overwrites the file with the whole ledger,
    records included. *)
Fixpoint dump (users : Users) : M (list (string * User)) :=
  match users with
  | [] => ret []
  | (user_id, l) :: rest =>
      u <- deref l ;;
      rest' <- dump rest ;;
      ret ((user_id, u) :: rest')
  end.

Definition db_save (filename : string) (users : Users) : M unit :=
  stored <- dump users ;;
  modify (fun s => set_disk (<[filename := stored]> (disk s)) s).

(** Modelled from the spec: [db.load(filename)] gives the ledger last
    saved under the name, made of new objects, and the empty ledger when
    nothing was saved. *)
Fixpoint restore (stored : list (string * User)) : M Users :=
  match stored with
  | [] => ret []
  | (user_id, u) :: rest =>
      l <- alloc u ;;
      rest' <- restore rest ;;
      ret ((user_id, l) :: rest')
  end.

Definition db_load (filename : string) : M Users :=
  stored <- gets (fun s => default [] (disk s !! filename)) ;;
  restore stored.

(** [copy.deepcopy(users)]: a new record object for every entry. *)
Fixpoint deepcopy (users : Users) : M Users :=
  match users with
  | [] => ret []
  | (user_id, l) :: rest =>
      u <- deref l ;;
      l' <- alloc u ;;
      rest' <- deepcopy rest ;;
      ret ((user_id, l') :: rest')
  end.

Definition set_online (users : Users) (user_id : string) : M unit :=
  l <- getitem users user_id ;;
  setattr l (with_active true) ;;;
  now <- time_time ;;
  l <- getitem users user_id ;;
  setattr l (with_first_seen (Some now)).

Definition set_offline (users : Users) (user_id : string) : M unit :=
  l <- getitem users user_id ;;
  setattr l (with_active false) ;;;
  l <- getitem users user_id ;;
  u <- deref l ;;
  now <- time_time ;;
  l' <- getitem users user_id ;;
  u' <- deref l' ;;
  elapsed <- elapsed_since now (first_seen u') ;;
  setattr l (with_total (total u + elapsed)) ;;;
  l <- getitem users user_id ;;
  setattr l (with_first_seen None).

(** The body of [for user_id, user in current_users.items()] in [save]. *)
Fixpoint save_loop (current_users : Users) (items : Users) : M unit :=
  match items with
  | [] => ret tt
  | (user_id, user) :: rest =>
      u <- deref user ;;
      (if active u then set_offline current_users user_id else ret tt) ;;;
      save_loop current_users rest
  end.

Definition save : M unit :=
  users <- gets (fun s => _users (self s)) ;;
  current_users <- deepcopy users ;;
  save_loop current_users current_users ;;;
  filename <- gets (fun s => _db_filename (self s)) ;;
  db_save filename current_users.

Definition load : M unit :=
  filename <- gets (fun s => _db_filename (self s)) ;;
  users <- db_load filename ;;
  modify (fun s => set_self (bot_set_users users (self s)) s).

(** Lines 87 to 95 of [_update_user]: both branches begin by reading
    [self._users[user_id]['active']]. *)
Definition update_presence (user_id : string) : M unit :=
  is_active <- api_is_user_active user_id ;;
  users <- gets (fun s => _users (self s)) ;;
  l <- getitem users user_id ;;
  u <- deref l ;;
  if is_active
  then (if negb (active u) then set_online users user_id else ret tt)
  else (if active u then set_offline users user_id else ret tt).

Definition _update_user (user_id : string) : M unit :=
  users <- gets (fun s => _users (self s)) ;;
  if negb (Dict.mem user_id users)
  then
    user <- api_get_user_info user_id ;;
    if is_bot user then ret tt
    else
      l <- alloc (mkUser (info_profile user) false None 0 false) ;;
      modify (fun s =>
                set_self (bot_set_users
                            (Dict.set user_id l (_users (self s)))
                            (self s)) s) ;;;
      update_presence user_id
  else update_presence user_id.

Fixpoint update_each (member_ids : list string) : M unit :=
  match member_ids with
  | [] => ret tt
  | member_id :: rest => _update_user member_id ;;; update_each rest
  end.

Definition _update_all_users : M unit :=
  channel <- gets (fun s => _rpg_channel_id (self s)) ;;
  member_ids <- api_get_channel_users channel ;;
  update_each member_ids.

Definition _post_connection_init : M unit :=
  self_user <- api_get_self ;;
  modify (fun s =>
            set_self (bot_set_identity (snd self_user) (fst self_user)
                                       (self s)) s) ;;;
  name <- gets (fun s => _rpg_channel_name (self s)) ;;
  rpg_channel <- api_get_channel name ;;
  modify (fun s => set_self (bot_set_channel rpg_channel (self s)) s) ;;;
  _update_all_users.

Definition _hello (channel_id : string) : M unit :=
  api_send_message channel_id "Hello from Python! :tada:".

Definition _handle_presence_change (event : Event) : M unit :=
  user_id <- event_getitem event "user" ;;
  _update_user user_id.

(** Lines 127 to 130: the total shown for one user. *)
Definition live_total (user : User) : M Z :=
  if active user
  then now <- time_time ;;
       elapsed <- elapsed_since now (first_seen user) ;;
       ret (total user + elapsed)%Z
  else ret (total user).

(** ['{}: {}'.format(name, total)] *)
Definition format_score (name : string) (is_float : bool) (n : Z) : string :=
  name +:+ ": " +:+ PyNum.str is_float n.

(** Whether [total] of lines 127 to 130 is a float: it is when the time
    of the open session was added to it, and as the record has it
    otherwise. *)
Definition live_is_float (user : User) : bool :=
  active user || total_is_float user.

(** Lines 121 to 125: the name shown for one user. *)
Definition shown_name (p : Profile) : string :=
  let name := display_name p in
  let name := if (String.length name =? 0)%nat then real_name p else name in
  let name := if (String.length name =? 0)%nat then email p else name in
  name.

Fixpoint scores_loop (items : Users) (scores : list string)
  : M (list string) :=
  match items with
  | [] => ret scores
  | (user_id, user) :: rest =>
      u <- deref user ;;
      n <- live_total u ;;
      scores_loop rest
        (scores ++ [format_score (shown_name (profile u)) (live_is_float u) n])
  end.

Definition _handle_command (event : Event) (command : string)
           (args : list string) : M unit :=
  if String.eqb (Str.lower command) "hello"
     || String.eqb (Str.lower command) "hi"
  then channel <- event_getitem event "channel" ;; _hello channel
  else if String.eqb (Str.lower command) "scores"
  then
    users <- gets (fun s => _users (self s)) ;;
    scores <- scores_loop users [] ;;
    channel <- event_getitem event "channel" ;;
    api_send_message channel
      ("Scores:" +:+ Str.newline +:+ Str.join Str.newline scores)
  else if String.eqb (Str.lower command) "save" then save
  else if String.eqb (Str.lower command) "load"
  then load ;;; _update_all_users
  else ret tt.

(** ['<@{}>'.format(self._id)] *)
Definition mention (id : option string) : string :=
  "<@" +:+ default "None" id +:+ ">".

Definition _handle_message (event : Event) : M unit :=
  text <- event_getitem event "text" ;;
  id <- gets (fun s => _id (self s)) ;;
  if Str.startswith text (mention id)
  then
    let chunks := Str.split text in
    if (1 <? length chunks)%nat
    then
      let args := if (2 <? length chunks)%nat then drop 2 chunks else [] in
      match chunks !! 1%nat with
      | Some command => _handle_command event command args
      | None => raise IndexError
      end
    else ret tt
  else ret tt.

Definition _handle_event (event : Event) : M unit :=
  type <- event_getitem event "type" ;;
  if String.eqb type "message" then _handle_message event
  else if String.eqb type "presence_change"
  then _handle_presence_change event
  else ret tt.

End Program.

(** [__init__]: a new process, with whatever is on disk. *)
Definition __init__ (rpg_channel_name db_filename : string)
           (files : gmap string (list (string * User))) (now : nat) : State :=
  state_of (load (mkState (mkBot None None None rpg_channel_name db_filename [])
                          [] files [] now)).

(** ** Reading the ledger *)

(** The record of a user, through the reference the ledger holds. *)
Definition lookup_user (s : State) (user_id : string) : option User :=
  l ← Dict.get user_id (_users (self s)); heap s !! l.

(** [sessionStart] is present exactly when the record is active. *)
Definition session_ok (u : User) : Prop :=
  is_Some (first_seen u) <-> active u = true.

(** ** Invariants and the history of a record *)

Section Accounting.
Variable env : Env.

(** A record as the bot leaves it at time [t]: the session start is
    there exactly when the record is active, and it is a reading of the
    clock taken before [t]. *)
Definition rec_ok (t : nat) (u : User) : Prop :=
  session_ok u /\
  forall t0, first_seen u = Some t0 -> exists k, k < t /\ t0 = clock env k.

(** What holds of the state between two operations: records are well
    formed, the ledger holds references to existing records under
    distinct keys, and so do the saved ledgers. *)
Definition inv (s : State) : Prop :=
  Forall (rec_ok (tick s)) (heap s) /\
  Forall (fun kl => kl.2 < length (heap s)) (_users (self s)) /\
  NoDup (_users (self s)).*1 /\
  map_Forall (fun _ stored =>
                NoDup stored.*1 /\
                Forall (fun ku => rec_ok (tick s) ku.2) stored) (disk s).

(** The presence transitions a record went through between the external
    calls number [lo] and [hi]: a session opens at a reading of the
    clock, and closes at a later one, adding the time in between. *)
Inductive rec_trace : nat -> nat -> User -> User -> Prop :=
| trace_done lo hi u : lo <= hi -> rec_trace lo hi u u
| trace_online lo hi k u u' :
    lo <= k -> active u = false ->
    rec_trace (S k) hi
              (mkUser (profile u) true (Some (clock env k)) (total u)
                      (total_is_float u)) u' ->
    rec_trace lo hi u u'
| trace_offline lo hi k t0 u u' :
    lo <= k -> active u = true -> first_seen u = Some t0 ->
    rec_trace (S k) hi
              (mkUser (profile u) false None
                      (total u + (clock env k - t0))%Z true) u' ->
    rec_trace lo hi u u'.

(** Every record of [s] is still there in [s'], after some presence
    transitions. *)
Definition evolves (s s' : State) : Prop :=
  tick s <= tick s' /\
  forall l u, heap s !! l = Some u ->
              exists u', heap s' !! l = Some u' /\
                         rec_trace (tick s) (tick s') u u'.

(** Every user of the ledger of [s] has the same record object in [s']. *)
Definition keeps_refs (s s' : State) : Prop :=
  forall user_id l, Dict.get user_id (_users (self s)) = Some l ->
                    Dict.get user_id (_users (self s')) = Some l.

Definition step (s s' : State) : Prop := evolves s s' /\ keeps_refs s s'.

(** A statement keeps the invariant and relates the states around it,
    whether it returns or raises. *)
Definition preserves (Rel : State -> State -> Prop) {A} (c : M A) : Prop :=
  forall s, inv s -> inv (state_of (c s)) /\ Rel s (state_of (c s)).


End Accounting.

(** ** Operations, reachable states and the scenarios of the statements *)

(** What can happen to a running bot. *)
Inductive Op :=
| OpConnect
| OpEvent (event : Event)
| OpUpdateUser (user_id : string)
| OpUpdateAll
| OpSave
| OpLoad.

Definition run_op (env : Env) (o : Op) : M unit :=
  match o with
  | OpConnect => _post_connection_init env
  | OpEvent event => _handle_event env event
  | OpUpdateUser user_id => _update_user env user_id
  | OpUpdateAll => _update_all_users env
  | OpSave => save env
  | OpLoad => load
  end.

(** The states of the bot: a first process starts with no file, any
    operation may follow and may raise, and a later process starts from
    the files left by the one before. *)
Inductive reachable (env : Env) : State -> Prop :=
| reach_start channel filename now :
    reachable env (__init__ channel filename ∅ now)
| reach_restart s channel filename :
    reachable env s ->
    reachable env (__init__ channel filename (disk s) (tick s))
| reach_op s o :
    reachable env s -> reachable env (state_of (run_op env o s)).

(** [n] presence notifications for one user, one after the other. *)
Fixpoint repeat_update (env : Env) (user_id : string) (n : nat) : M unit :=
  match n with
  | O => ret tt
  | S k => _update_user env user_id ;;; repeat_update env user_id k
  end.

(** [liveTotal(record, now)] in the words of the specification. *)
Definition liveTotal (u : User) (now : Z) : Z :=
  match active u, first_seen u with
  | true, Some t0 => (total u + (now - t0))%Z
  | _, _ => total u
  end.




Fixpoint string_drop (n : nat) (s : string) : string :=
  match n, s with
  | S k, String _ r => string_drop k r
  | _, _ => s
  end.

(** The addressing rule in the words of the specification: the text begins
    with the mention, and what follows it is cut at white space into the
    command name and the arguments. *)
Definition spec_command (id : option string) (text : string)
  : option (string * list string) :=
  if Str.startswith text (mention id)
  then match Str.split (string_drop (String.length (mention id)) text) with
       | command :: args => Some (command, args)
       | [] => None
       end
  else None.

Fixpoint has_space (s : string) : bool :=
  match s with
  | EmptyString => false
  | String c r => Str.isspace c || has_space r
  end.

Definition recognized (command : string) : bool :=
  String.eqb (Str.lower command) "hello" || String.eqb (Str.lower command) "hi"
  || String.eqb (Str.lower command) "scores"
  || String.eqb (Str.lower command) "save"
  || String.eqb (Str.lower command) "load".



(** Nothing below [n] in the store has changed, nor the bot itself. *)
Definition frame (n : nat) (s s' : State) : Prop :=
  self s' = self s /\ n <= length (heap s') /\
  forall l, l < n -> heap s' !! l = heap s !! l.

(** *** Concrete settings *)

Module Scenario.

Definition ann : Profile := mkProfile "Ann" "Ann Lee" "ann@example.org".

(** A workspace where [U1] is a person and [B1] a bot, the clock gains ten
    seconds with every call, every other presence query says active, and
    Slack accepts every call. *)
Definition env0 : Env :=
  mkEnv (fun n => Z.of_nat n * 10)%Z
        (fun _ u => Some (mkUserInfo (String.eqb u "B1") ann))
        (fun n _ => Some (Nat.even (n / 2)))
        (fun _ _ => Some ["U1"; "B1"])
        (fun _ _ => Some "C1")
        (fun _ _ _ => true)
        ("BOT", "idlebot").


(** A bot that has just started, and the same bot once connected. *)
Definition started : State := __init__ "general" "idlerpg.db" ∅ 0.
Definition connected : State :=
  state_of (_post_connection_init env0 started).

Definition message (text : string) : Event :=
  <["type" := "message"]> (<["text" := text]> (<["channel" := "C1"]> ∅)).

(** [U1] has come online. *)
Definition online : State := state_of (_update_user env0 "U1" connected).

(** One user, Ann, not active, with 42 seconds. *)
Definition idle : State :=
  mkState (mkBot (Some "idlebot") (Some "BOT") (Some "C1") "general"
                 "idlerpg.db" [("U1", 0)])
          [mkUser ann false None 42 true] ∅ [] 0.




End Scenario.

(** ** The event loop of [bot.py] *)

(** Modelled from the spec: [api.connect()] opens the event stream or
    fails with a connection error, and [api.read()] gives the next batch
    of events, which may be empty. *)
Record Rtm := mkRtm {
  rtm_connect : bool;
  rtm_read : nat -> list Event
}.

Section Loop.
Variable env : Env.
Variable rtm : Rtm.

Definition api_connect : M unit :=
  if rtm_connect rtm then ret tt else raise RuntimeError.

Definition api_read : M (list Event) :=
  fun s => Ok (rtm_read rtm (tick s)) (next_tick s).

(** [for event in events: self._handle_event(event)] *)
Fixpoint handle_each (events : list Event) : M unit :=
  match events with
  | [] => ret tt
  | event :: rest => _handle_event env event ;;; handle_each rest
  end.

(** The first [rounds] turns of [while True]; the pause between two turns
    changes nothing. *)
Fixpoint poll (rounds : nat) : M unit :=
  match rounds with
  | O => ret tt
  | S n => events <- api_read ;; handle_each events ;;; poll n
  end.

Definition connect (rounds : nat) : M unit :=
  api_connect ;;; _post_connection_init env ;;; poll rounds.

End Loop.

(** ** [str.format] *)

(** [template.format( *args )] for a template whose only braces are the
    fields [{}]: every field takes the next argument, arguments left over
    are ignored, and a field with no argument left is an [IndexError],
    here [None]. *)
Fixpoint str_format (template : string) (args : list string)
  : option string :=
  match template with
  | EmptyString => Some EmptyString
  | String c r =>
      match r with
      | String d r' =>
          if (N_of_ascii c =? 123)%N && (N_of_ascii d =? 125)%N
          then match args with
               | a :: rest => option_map (String.append a) (str_format r' rest)
               | [] => None
               end
          else option_map (String c) (str_format r args)
      | EmptyString => Some (String c EmptyString)
      end
  end.

Definition quote : string := String (ascii_of_N 34) "".

(** ** The legacy script [idlerpg-slack.py] *)

Module Legacy.

(** One entry of [response['channels']]. *)
Record Channel := mkChannel {
  channel_name : string;
  channel_id : string
}.

(** What [SlackClient.api_call] returns: a JSON object that always says
    [ok]; a key that is not in the object is [None]. *)
Record Response := mkResponse {
  ok : bool;
  error : option string;
  channels : option (list Channel);
  members : option (list string);
  user : option UserInfo;
  presence : option string
}.

(** The [slackclient] library and the wall clock, each answer depending on
    the moment of the call. *)
Record Web := mkWeb {
  api_call : nat -> string -> list (string * string) -> Response;
  sc_rtm_connect : bool;
  sc_rtm_read : nat -> list Event;
  login_data_self : string * string;
  wall_clock : nat -> Z
}.

(** [response[key]] *)
Definition response_getitem {A} (field : option A) (key : string) : M A :=
  match field with
  | Some v => ret v
  | None => raise (KeyError key)
  end.

Section Client.
Variable web : Web.

(** [self._sc.api_call(method, **kwargs)]; a message that Slack accepts
    is posted. *)
Definition sc_api_call (method : string) (kwargs : list (string * string))
  : M Response :=
  fun s =>
    let response := api_call web (tick s) method kwargs in
    Ok response
       (next_tick
          (if String.eqb method "chat.postMessage" && ok response
           then set_sent (sent s ++
                          [(default "" (Dict.get "channel" kwargs),
                            default "" (Dict.get "text" kwargs))]) s
           else s)).

(** [time.time()] *)
Definition time_time : M Z :=
  fun s => Ok (wall_clock web (tick s)) (next_tick s).

Definition error_template : string :=
  "Error calling '{}', message: " +:+ quote +:+ "{}" +:+ quote.

(** [SlackApiClient._safe_web_call] *)
Definition _safe_web_call (method : string) (kwargs : list (string * string))
  : M Response :=
  response <- sc_api_call method kwargs ;;
  if negb (ok response)
  then
    e <- response_getitem (error response) "error" ;;
    match str_format error_template [e] with
    | Some message => raise RuntimeError
    | None => raise IndexError
    end
  else ret response.

(** [SlackApiClient.connect] *)
Definition client_connect : M unit :=
  if negb (sc_rtm_connect web) then raise RuntimeError else ret tt.

(** [SlackApiClient.read] *)
Definition read : M (list Event) :=
  fun s => Ok (sc_rtm_read web (tick s)) (next_tick s).

(** [for channel in channels: ... else: raise ...] of [get_channel]. *)
Fixpoint find_channel (name : string) (channels : list Channel) : M Channel :=
  match channels with
  | [] =>
      match str_format "Channel {} not found" [name] with
      | Some message => raise RuntimeError
      | None => raise IndexError
      end
  | channel :: rest =>
      if String.eqb (channel_name channel) name then ret channel
      else find_channel name rest
  end.

Definition get_channel (name : string) : M Channel :=
  response <- _safe_web_call "channels.list" [] ;;
  channels <- response_getitem (channels response) "channels" ;;
  find_channel name channels.

Definition get_channel_users (channel_id : string) : M (list string) :=
  response <- _safe_web_call "conversations.members"
                             [("channel", channel_id)] ;;
  response_getitem (members response) "members".

Definition get_user_info (user_id : string) : M UserInfo :=
  response <- _safe_web_call "users.info" [("user", user_id)] ;;
  response_getitem (user response) "user".

Definition is_user_active (user_id : string) : M bool :=
  response <- _safe_web_call "users.getPresence" [("user", user_id)] ;;
  p <- response_getitem (presence response) "presence" ;;
  ret (String.eqb p "active").

Definition send_message (channel_id message : string) : M unit :=
  _safe_web_call "chat.postMessage"
                 [("channel", channel_id); ("text", message)] ;;;
  ret tt.

Definition get_self : M (string * string) := ret (login_data_self web).

(** *** [IdleRpgBot] of the legacy script; it has no [_db_filename], and
    the field of that name stays as it is. *)

(** [self._users[id]] *)
Definition users_getitem (id : string) : M nat :=
  users <- gets (fun s => _users (self s)) ;;
  getitem users id.

(** Lines 148 and 149. *)
Definition mark_online (id : string) : M unit :=
  l <- users_getitem id ;;
  setattr l (with_active true) ;;;
  now <- time_time ;;
  l <- users_getitem id ;;
  setattr l (with_first_seen (Some now)).

(** Lines 152 to 154. *)
Definition mark_offline (id : string) : M unit :=
  l <- users_getitem id ;;
  setattr l (with_active false) ;;;
  l <- users_getitem id ;;
  u <- deref l ;;
  now <- time_time ;;
  l' <- users_getitem id ;;
  u' <- deref l' ;;
  elapsed <- elapsed_since now (first_seen u') ;;
  setattr l (with_total (total u + elapsed)) ;;;
  l <- users_getitem id ;;
  setattr l (with_first_seen None).

(** Lines 144 to 154: both branches begin by reading
    [self._users[id]['active']]. *)
Definition presence_update (id : string) : M unit :=
  is_active <- is_user_active id ;;
  l <- users_getitem id ;;
  u <- deref l ;;
  if is_active
  then (if negb (active u) then mark_online id else ret tt)
  else (if active u then mark_offline id else ret tt).

Definition _user_update (id : string) : M unit :=
  users <- gets (fun s => _users (self s)) ;;
  if negb (Dict.mem id users)
  then
    user <- get_user_info id ;;
    if is_bot user then ret tt
    else
      l <- alloc (mkUser (info_profile user) false None 0 false) ;;
      modify (fun s =>
                set_self (bot_set_users (Dict.set id l (_users (self s)))
                                        (self s)) s) ;;;
      presence_update id
  else presence_update id.

Fixpoint update_members (member_ids : list string) : M unit :=
  match member_ids with
  | [] => ret tt
  | member_id :: rest => _user_update member_id ;;; update_members rest
  end.

Definition _post_connection_init : M unit :=
  self_user <- get_self ;;
  modify (fun s =>
            set_self (bot_set_identity (snd self_user) (fst self_user)
                                       (self s)) s) ;;;
  name <- gets (fun s => _rpg_channel_name (self s)) ;;
  rpg_channel <- get_channel name ;;
  member_ids <- get_channel_users (channel_id rpg_channel) ;;
  update_members member_ids.

Definition _hello (channel_id : string) : M unit :=
  send_message channel_id "Hello from Python! :tada:".

(** Lines 186 to 189: the total shown for one user. *)
Definition shown_total (u : User) : M Z :=
  if active u
  then now <- time_time ;;
       elapsed <- elapsed_since now (first_seen u) ;;
       ret (total u + elapsed)%Z
  else ret (total u).

Fixpoint scores_lines (items : Users) (scores : list string)
  : M (list string) :=
  match items with
  | [] => ret scores
  | (user_id, user) :: rest =>
      u <- deref user ;;
      n <- shown_total u ;;
      scores_lines rest
        (scores ++ [format_score (shown_name (profile u)) (live_is_float u) n])
  end.

Definition _handle_command (event : Event) (command : string)
           (args : list string) : M unit :=
  if String.eqb (Str.lower command) "hello"
     || String.eqb (Str.lower command) "hi"
  then channel <- event_getitem event "channel" ;; _hello channel
  else if String.eqb (Str.lower command) "scores"
  then
    users <- gets (fun s => _users (self s)) ;;
    scores <- scores_lines users [] ;;
    channel <- event_getitem event "channel" ;;
    send_message channel
      ("Scores:" +:+ Str.newline +:+ Str.join Str.newline scores)
  else ret tt.

Definition _handle_presence_change (event : Event) : M unit :=
  user_id <- event_getitem event "user" ;;
  _user_update user_id.

Definition _handle_message (event : Event) : M unit :=
  text <- event_getitem event "text" ;;
  id <- gets (fun s => _id (self s)) ;;
  if Str.startswith text (mention id)
  then
    let chunks := Str.split text in
    if (1 <? length chunks)%nat
    then
      let args := if (2 <? length chunks)%nat then drop 2 chunks else [] in
      match chunks !! 1%nat with
      | Some command => _handle_command event command args
      | None => raise IndexError
      end
    else ret tt
  else ret tt.

Definition _handle_event (event : Event) : M unit :=
  type <- event_getitem event "type" ;;
  if String.eqb type "message" then _handle_message event
  else if String.eqb type "presence_change"
  then _handle_presence_change event
  else ret tt.

End Client.

(** The oracle of [bot.py] that answers as this client does when the web
    calls succeed. *)
Definition env_of (web : Web) : Env :=
  mkEnv (wall_clock web)
        (fun t user_id =>
           let r := api_call web t "users.info" [("user", user_id)] in
           if ok r then user r else None)
        (fun t user_id =>
           let r := api_call web t "users.getPresence" [("user", user_id)] in
           if ok r then option_map (fun p => String.eqb p "active") (presence r)
           else None)
        (fun t channel =>
           match channel with
           | Some c =>
               let r := api_call web t "conversations.members"
                                 [("channel", c)] in
               if ok r then members r else None
           | None => None
           end)
        (fun t name =>
           let r := api_call web t "channels.list" [] in
           if ok r
           then match channels r with
                | Some cs =>
                    option_map channel_id
                      (List.find (fun c => String.eqb (channel_name c) name)
                                 cs)
                | None => None
                end
           else None)
        (fun t c m =>
           ok (api_call web t "chat.postMessage"
                        [("channel", c); ("text", m)]))
        (login_data_self web).

End Legacy.

(** ** Auxiliary notions for the rest of the program *)

(** The state when [_update_user] has made the record of a new person and
    is about to ask for the presence. *)
Definition enrolled (user_id : string) (p : Profile) (s : State) : State :=
  mkState (bot_set_users (_users (self s) ++ [(user_id, length (heap s))])
                         (self s))
          (heap s ++ [mkUser p false None 0 false])
          (disk s) (sent s) (S (tick s)).

(** Whatever the outcome of a statement, the state after it is related to
    the state before. *)
Definition always (Rel : State -> State -> Prop) {A} (c : M A) : Prop :=
  forall s, Rel s (state_of (c s)).

(** Whatever the outcome of a statement, it keeps a property of the
    state. *)
Definition keeps (J : State -> Prop) {A} (c : M A) : Prop :=
  forall s, J s -> J (state_of (c s)).

(** The bot and the files are what they were. *)
Definition same_bot (s s' : State) : Prop :=
  self s' = self s /\ disk s' = disk s.

(** The bot, the records, the files and the messages posted are what they
    were: at most the clock was read or Slack was asked. *)
Definition same_store (s s' : State) : Prop :=
  self s' = self s /\ heap s' = heap s /\ disk s' = disk s /\
  sent s' = sent s.


(** The fields of the bot other than the ledger are what they were. *)
Definition same_identity (s s' : State) : Prop :=
  _name (self s') = _name (self s) /\ _id (self s') = _id (self s) /\
  _rpg_channel_id (self s') = _rpg_channel_id (self s) /\
  _rpg_channel_name (self s') = _rpg_channel_name (self s) /\
  _db_filename (self s') = _db_filename (self s).

(** Slack has once answered that the account is not a bot. *)
Definition non_bot (env : Env) (user_id : string) : Prop :=
  exists t info, users_info env t user_id = Some info /\ is_bot info = false.

(** The ledger of [s'] has the keys of the ledger of [s], in the same
    order, followed by new keys, all among [allowed] and none of a bot;
    the files and the other fields of the bot are what they were. *)
Definition enrols (env : Env) (allowed : list string) (s s' : State) : Prop :=
  disk s' = disk s /\ same_identity s s' /\
  exists new,
    (_users (self s')).*1 = (_users (self s)).*1 ++ new /\
    Forall (fun k => (k ∈ allowed) /\ non_bot env k) new.

(** The identity is in no ledger, neither the one of the bot nor one in a
    file. *)
Definition bot_free (user_id : string) (s : State) : Prop :=
  (user_id ∉ (_users (self s)).*1) /\
  forall f stored, disk s !! f = Some stored -> user_id ∉ stored.*1.

(** Two outcomes with the same state that are both a return of the same
    value or both an exception. *)
Definition agree {A} (r1 r2 : Res A) : Prop :=
  match r1, r2 with
  | Ok a s1, Ok b s2 => a = b /\ s1 = s2
  | Raise _ s1, Raise _ s2 => s1 = s2
  | _, _ => False
  end.

(** *** A concrete workspace for the legacy client *)

Module LegacyScenario.

Definition rejected : Legacy.Response :=
  Legacy.mkResponse false (Some "unknown_method") None None None None.

(** Two channels, [U1] a person and [B1] a bot, every other presence query
    says active, the clock gains ten seconds with every call, and a method
    that Slack does not know is rejected. *)
Definition web0 : Legacy.Web :=
  Legacy.mkWeb
    (fun t method kwargs =>
       if String.eqb method "channels.list"
       then Legacy.mkResponse true None
              (Some [Legacy.mkChannel "random" "C0";
                     Legacy.mkChannel "general" "C1"]) None None None
       else if String.eqb method "conversations.members"
       then Legacy.mkResponse true None None (Some ["U1"; "B1"]) None None
       else if String.eqb method "users.info"
       then Legacy.mkResponse true None None None
              (Some (mkUserInfo
                       (String.eqb (default "" (Dict.get "user" kwargs)) "B1")
                       Scenario.ann)) None
       else if String.eqb method "users.getPresence"
       then Legacy.mkResponse true None None None None
              (Some (if Nat.even (t / 2) then "active" else "away"))
       else if String.eqb method "chat.postMessage"
       then Legacy.mkResponse true None None None None None
       else rejected)
    true (fun _ => []) ("BOT", "idlebot")
    (fun n => Z.of_nat n * 10)%Z.

End LegacyScenario.

(** ** The accounting in double precision *)

(** [time.time()] returns a float, a binary64 number, so the totals are
    sums of floats.  Here are [set_online], [set_offline] and
    [_update_user] once more, with the numbers and the rounding of the
    machine.  The ledger holds the records themselves, as no record is
    shared here, and the [int] total [0] of a new record is the float
    zero: a float added to either gives the same float. *)
Module Binary64.
Import SpecFloat FloatOps.

Record User := mkUser {
  profile : Profile;
  active : bool;
  first_seen : option float;
  total : float
}.

Definition with_active (b : bool) (u : User) : User :=
  mkUser (profile u) b (first_seen u) (total u).
Definition with_first_seen (t : option float) (u : User) : User :=
  mkUser (profile u) (active u) t (total u).
Definition with_total (x : float) (u : User) : User :=
  mkUser (profile u) (active u) (first_seen u) x.

(** [self._users] and the number of external calls made. *)
Record State := mkState {
  _users : list (string * User);
  tick : nat
}.

Definition next_tick (s : State) : State := mkState (_users s) (S (tick s)).

Record Env := mkEnv {
  clock : nat -> float;
  users_info : nat -> string -> option UserInfo;
  users_getPresence : nat -> string -> option bool
}.

Inductive Res (A : Type) :=
| Ok (a : A) (s : State)
| Raise (e : Exn) (s : State).
Arguments Ok {A} a s.
Arguments Raise {A} e s.

Definition state_of {A} (r : Res A) : State :=
  match r with Ok _ s => s | Raise _ s => s end.

Definition M (A : Type) : Type := State -> Res A.

Definition ret {A} (a : A) : M A := fun s => Ok a s.
Definition raise {A} (e : Exn) : M A := fun s => Raise e s.
Definition bind {A B} (c : M A) (k : A -> M B) : M B :=
  fun s => match c s with
           | Ok a s' => k a s'
           | Raise e s' => Raise e s'
           end.
Definition gets {A} (f : State -> A) : M A := fun s => Ok (f s) s.

Declare Scope b64_scope.
Delimit Scope b64_scope with b64.
Notation "x <- c ;; k" := (bind c (fun x => k))
  (at level 100, c at next level, right associativity) : b64_scope.
Notation "c ;;; k" := (bind c (fun _ => k))
  (at level 100, right associativity) : b64_scope.
Local Open Scope b64_scope.

(** [users[user_id]] *)
Definition getitem (user_id : string) : M User :=
  fun s => match Dict.get user_id (_users s) with
           | Some u => Ok u s
           | None => Raise (KeyError user_id) s
           end.

(** [users[user_id][field] = value] *)
Definition setattr (user_id : string) (f : User -> User) : M unit :=
  u <- getitem user_id ;;
  fun s => Ok tt (mkState (Dict.set user_id (f u) (_users s)) (tick s)).

(** [now - first_seen], which needs a number on the right. *)
Definition elapsed_since (now : float) (t0 : option float) : M float :=
  match t0 with
  | Some t => ret (now - t)%float
  | None => raise TypeError
  end.

Section Program.
Variable env : Env.

Definition time_time : M float :=
  fun s => Ok (clock env (tick s)) (next_tick s).

Definition api_get_user_info (user_id : string) : M UserInfo :=
  fun s => match users_info env (tick s) user_id with
           | Some user => Ok user (next_tick s)
           | None => Raise RuntimeError (next_tick s)
           end.

Definition api_is_user_active (user_id : string) : M bool :=
  fun s => match users_getPresence env (tick s) user_id with
           | Some b => Ok b (next_tick s)
           | None => Raise RuntimeError (next_tick s)
           end.

Definition set_online (user_id : string) : M unit :=
  setattr user_id (with_active true) ;;;
  now <- time_time ;;
  setattr user_id (with_first_seen (Some now)).

Definition set_offline (user_id : string) : M unit :=
  setattr user_id (with_active false) ;;;
  u <- getitem user_id ;;
  now <- time_time ;;
  u' <- getitem user_id ;;
  elapsed <- elapsed_since now (first_seen u') ;;
  setattr user_id (with_total (total u + elapsed)%float) ;;;
  setattr user_id (with_first_seen None).

(** Lines 87 to 95 of [_update_user]. *)
Definition update_presence (user_id : string) : M unit :=
  is_active <- api_is_user_active user_id ;;
  u <- getitem user_id ;;
  if is_active
  then (if negb (active u) then set_online user_id else ret tt)
  else (if active u then set_offline user_id else ret tt).

Definition _update_user (user_id : string) : M unit :=
  users <- gets _users ;;
  if negb (Dict.mem user_id users)
  then
    user <- api_get_user_info user_id ;;
    if is_bot user then ret tt
    else
      (fun s => Ok tt (mkState
                         (Dict.set user_id
                                   (mkUser (info_profile user) false None 0)
                                   (_users s))
                         (tick s))) ;;;
      update_presence user_id
  else update_presence user_id.

(** [n] presence notifications for one user, one after the other. *)
Fixpoint repeat_update (user_id : string) (n : nat) : M unit :=
  match n with
  | O => ret tt
  | S k => _update_user user_id ;;; repeat_update user_id k
  end.

(** The (online, offline) readings of the clock of [n] sessions in a row,
    when the first presence query is the external call number [t]: every
    notification asks for the presence and then reads the clock. *)
Fixpoint sessions (t n : nat) : list (float * float) :=
  match n with
  | O => []
  | S k => (clock env (t + 1), clock env (t + 3)) :: sessions (t + 4) k
  end.

End Program.

(** [liveTotal(record, now)] in the words of the specification. *)
Definition liveTotal (u : User) (now : float) : float :=
  match active u, first_seen u with
  | true, Some t0 => (total u + (now - t0))%float
  | _, _ => total u
  end.

(** What the program makes of a total [t] and the sessions [l]: it takes
    them in turn, subtracts the two readings and adds the difference to
    the total, rounding both times. *)
Definition accumulate (t : float) (l : list (float * float)) : float :=
  foldl (fun acc p => (acc + (p.2 - p.1))%float) t l.

(** The whole number that a float holds, when it holds one. *)
Definition whole (x : float) : option Z :=
  match Prim2SF x with
  | S754_zero _ => Some 0%Z
  | S754_finite sign m e =>
      let magnitude :=
        if (0 <=? e)%Z then Some (Z.pos m * 2 ^ e)%Z
        else if (Z.pos m mod 2 ^ (- e) =? 0)%Z
             then Some (Z.pos m / 2 ^ (- e))%Z
             else None in
      (if sign then Z.opp else id) <$> magnitude
  | _ => None
  end.

(** The exact sum of (offline time - online time) over sessions whose
    readings are whole numbers. *)
Fixpoint exact_sum (l : list (float * float)) : option Z :=
  match l with
  | [] => Some 0%Z
  | (t0, t1) :: rest =>
      a ← whole t0; b ← whole t1; r ← exact_sum rest; Some (b - a + r)%Z
  end.

(** A ledger with one user, not active and with nothing counted yet; a
    clock that reads 1, then 2^53 and then 2^53 + 2, never going back;
    the presence queries of the notifications, which are the external
    calls number 0, 2, 4, ..., say active and not active in turn. *)
Definition ann : User := mkUser Scenario.ann false None 0.

Definition start : State := mkState [("U1", ann)] 0.

Definition env_late : Env :=
  mkEnv (fun n => if (n <? 2)%nat then 1
                  else if (n <? 6)%nat then 9007199254740992
                  else 9007199254740994)%float
        (fun _ _ => Some (mkUserInfo false Scenario.ann))
        (fun n _ => Some (Nat.even (n / 2))).

(** The same ledger with a clock that gains a second and a half with
    every call; and with that clock when every presence query says
    active. *)
Definition env_steady : Env :=
  mkEnv (fun n => of_uint63 (Uint63.of_Z (Z.of_nat n)) * 1.5)%float
        (users_info env_late) (users_getPresence env_late).

Definition env_on : Env :=
  mkEnv (clock env_steady) (users_info env_late) (fun _ _ => Some true).

End Binary64.

(** * Proofs *)

(** ** Facts about dicts *)

Module DictFacts.

Section Facts.
Context {V : Type}.
Implicit Types (d : list (string * V)) (k : string) (v : V).

Lemma eqb_refl k : String.eqb k k = true.
Proof. by apply String.eqb_eq. Qed.

Lemma get_set_eq k v d : Dict.get k (Dict.set k v d) = Some v.
Proof.
  induction d as [|[k' v'] d IH]; simpl.
  - by rewrite eqb_refl.
  - destruct (String.eqb k k') eqn:E; simpl.
    + by rewrite eqb_refl.
    + by rewrite E.
Qed.

Lemma get_set_ne k k' v d :
  k ≠ k' -> Dict.get k' (Dict.set k v d) = Dict.get k' d.
Proof.
  intros Hne. induction d as [|[k0 v0] d IH]; simpl.
  - destruct (String.eqb k' k) eqn:E; [|done].
    apply String.eqb_eq in E. congruence.
  - destruct (String.eqb k k0) eqn:E; simpl.
    + apply String.eqb_eq in E. subst k0.
      destruct (String.eqb k' k) eqn:E'; [|done].
      apply String.eqb_eq in E'. congruence.
    + by rewrite IH.
Qed.

Lemma set_set k v v' d : Dict.set k v (Dict.set k v' d) = Dict.set k v d.
Proof.
  induction d as [|[k0 v0] d IH]; simpl.
  - by rewrite eqb_refl.
  - destruct (String.eqb k k0) eqn:E; simpl.
    + by rewrite eqb_refl.
    + by rewrite E, IH.
Qed.

Lemma get_elem_of k v d : Dict.get k d = Some v -> (k, v) ∈ d.
Proof.
  induction d as [|[k0 v0] d IH]; simpl; [done|].
  destruct (String.eqb k k0) eqn:E.
  - apply String.eqb_eq in E. intros [= ->]. subst. left.
  - intros H. right. auto.
Qed.

Lemma get_None k d : Dict.get k d = None <-> k ∉ d.*1.
Proof.
  induction d as [|[k0 v0] d IH]; simpl.
  - split; [intros _; apply not_elem_of_nil | done].
  - destruct (String.eqb k k0) eqn:E.
    + apply String.eqb_eq in E. subst. split; [done|].
      intros H. exfalso. apply H. left.
    + apply String.eqb_neq in E. rewrite IH. rewrite not_elem_of_cons.
      tauto.
Qed.


Lemma mem_true k d : Dict.mem k d = true <-> is_Some (Dict.get k d).
Proof.
  unfold Dict.mem. destruct (Dict.get k d); split; try done.
Qed.

Lemma keys_set_in k v d :
  is_Some (Dict.get k d) -> (Dict.set k v d).*1 = d.*1.
Proof.
  induction d as [|[k0 v0] d IH]; simpl.
  - intros [? ?]. done.
  - destruct (String.eqb k k0) eqn:E; simpl.
    + apply String.eqb_eq in E. by subst.
    + intros H. f_equal. by apply IH.
Qed.

Lemma keys_set_new k v d :
  Dict.get k d = None -> (Dict.set k v d).*1 = d.*1 ++ [k].
Proof.
  induction d as [|[k0 v0] d IH]; simpl; [done|].
  destruct (String.eqb k k0) eqn:E; [done|].
  intros H. simpl. f_equal. by apply IH.
Qed.

Lemma NoDup_keys_set k v d : NoDup d.*1 -> NoDup (Dict.set k v d).*1.
Proof.
  intros Hnd. destruct (Dict.get k d) eqn:E.
  - rewrite keys_set_in; [done | by eexists].
  - rewrite keys_set_new by done.
    apply NoDup_app. split; [done|]. split.
    + intros x Hx Hk. apply list_elem_of_singleton in Hk. subst x.
      by apply get_None in E.
    + apply NoDup_singleton.
Qed.

Lemma Forall_set (P : string * V -> Prop) k v d :
  P (k, v) -> Forall P d -> Forall P (Dict.set k v d).
Proof.
  intros Hkv. induction 1 as [|[k0 v0] d H0 Hd IH]; simpl.
  - by constructor.
  - destruct (String.eqb k k0); constructor; auto.
Qed.
End Facts.

End DictFacts.

(** ** Facts about statements *)

Section MonadFacts.
Context {A B : Type}.

Lemma bind_Ok (c : M A) (k : A -> M B) s a s' :
  c s = Ok a s' -> bind c k s = k a s'.
Proof. unfold bind. by intros ->. Qed.

Lemma bind_Raise (c : M A) (k : A -> M B) s e s' :
  c s = Raise e s' -> bind c k s = Raise e s'.
Proof. unfold bind. by intros ->. Qed.
End MonadFacts.

Section TraceFacts.
Variable env : Env.

Lemma rec_ok_later t t' u : t <= t' -> rec_ok env t u -> rec_ok env t' u.
Proof.
  intros Hle [Hs Ht]. split; [done|].
  intros t0 H0. destruct (Ht t0 H0) as (k & Hk & ->).
  exists k. split; [lia | done].
Qed.

Lemma rec_ok_fresh t p n f : rec_ok env t (mkUser p false None n f).
Proof.
  split.
  - unfold session_ok. simpl. split; [intros [? ?]; done | done].
  - simpl. done.
Qed.

Lemma rec_ok_opened t p n f :
  rec_ok env (S t) (mkUser p true (Some (clock env t)) n f).
Proof.
  split.
  - unfold session_ok. simpl. split; [done | by eexists].
  - simpl. intros t0 [= <-]. exists t. split; [lia | done].
Qed.

Lemma trace_le lo hi u u' : rec_trace env lo hi u u' -> lo <= hi.
Proof. induction 1; lia. Qed.

Lemma trace_widen lo hi lo' hi' u u' :
  lo' <= lo -> hi <= hi' ->
  rec_trace env lo hi u u' -> rec_trace env lo' hi' u u'.
Proof.
  intros Hlo Hhi H. revert lo' Hlo.
  induction H as [lo hi u Hle | lo hi k u u' Hk Ha H IH
                  | lo hi k t0 u u' Hk Ha Ht H IH]; intros lo' Hlo.
  - apply trace_done. lia.
  - eapply trace_online with (k := k); [lia | done |]. apply IH; lia.
  - eapply trace_offline with (k := k); [lia | done | done |].
    apply IH; lia.
Qed.

Lemma trace_trans lo mid hi u u' u'' :
  rec_trace env lo mid u u' -> rec_trace env mid hi u' u'' ->
  rec_trace env lo hi u u''.
Proof.
  intros H. revert hi u''.
  induction H as [lo mid u Hle | lo mid k u u' Hk Ha H IH
                  | lo mid k t0 u u' Hk Ha Ht H IH]; intros hi u'' H2.
  - eapply trace_widen; [| |exact H2]; lia.
  - eapply trace_online with (k := k); [done | done |]. by apply IH.
  - eapply trace_offline with (k := k); [done | done | done |]. by apply IH.
Qed.



Lemma evolves_refl s : evolves env s s.
Proof.
  split; [done|]. intros l u H. exists u. split; [done|].
  by apply trace_done.
Qed.

Lemma evolves_trans s1 s2 s3 :
  evolves env s1 s2 -> evolves env s2 s3 -> evolves env s1 s3.
Proof.
  intros [Ht1 H1] [Ht2 H2]. split; [lia|].
  intros l u Hl. destruct (H1 l u Hl) as (u' & Hl' & Htr).
  destruct (H2 l u' Hl') as (u'' & Hl'' & Htr').
  exists u''. split; [done|]. by eapply trace_trans.
Qed.

Lemma step_refl s : step env s s.
Proof. split; [apply evolves_refl | by intros ? ?]. Qed.

Lemma step_trans s1 s2 s3 : step env s1 s2 -> step env s2 s3 -> step env s1 s3.
Proof.
  intros [E1 K1] [E2 K2]. split; [by eapply evolves_trans|].
  intros uid l H. apply K2, K1, H.
Qed.

(** Sequencing. *)
Lemma preserves_bind {A B} (Rel : State -> State -> Prop)
      (c : M A) (k : A -> M B) :
  (forall s1 s2 s3, Rel s1 s2 -> Rel s2 s3 -> Rel s1 s3) ->
  preserves env Rel c -> (forall a, preserves env Rel (k a)) ->
  preserves env Rel (bind c k).
Proof.
  intros Htrans Hc Hk s Hs. unfold bind.
  destruct (Hc s Hs) as [Hi Hr]. destruct (c s) as [a s'|e s']; simpl in *.
  - destruct (Hk a s' Hi) as [Hi' Hr']. split; [done|]. by eapply Htrans.
  - done.
Qed.

Lemma preserves_weaken {A} (R1 R2 : State -> State -> Prop) (c : M A) :
  (forall s s', R1 s s' -> R2 s s') ->
  preserves env R1 c -> preserves env R2 c.
Proof. intros H Hc s Hs. destruct (Hc s Hs). split; auto. Qed.

(** A statement that leaves the state as it is. *)
Lemma preserves_pure {A} (Rel : State -> State -> Prop) (c : M A) :
  (forall s, Rel s s) -> (forall s, state_of (c s) = s) ->
  preserves env Rel c.
Proof. intros Hrefl H s Hs. rewrite H. split; [done | apply Hrefl]. Qed.

End TraceFacts.

(** ** Facts about the store *)

Ltac split_inv := split; [|split; [|split]]; simpl; try done.

(** Reads and writes of one cell of the store, one after the other. *)
Ltac run_store :=
  repeat first
    [ rewrite list_lookup_insert_eq by (rewrite ?length_insert; done)
    | rewrite list_insert_insert_eq
    | progress simpl ].

Section StoreFacts.
Variable env : Env.

Lemma inv_next_tick s : inv env s -> inv env (next_tick s).
Proof.
  intros (Hh & Hr & Hk & Hd). split_inv.
  - eapply Forall_impl; [exact Hh|]. intros u. apply rec_ok_later. lia.
  - intros f stored Hf. destruct (Hd f stored Hf) as [Hn Hs].
    split; [done|]. eapply Forall_impl; [exact Hs|].
    intros ku. apply rec_ok_later. lia.
Qed.

Lemma inv_set_sent m s : inv env s -> inv env (set_sent m s).
Proof. intros (Hh & Hr & Hk & Hd). by split_inv. Qed.

Lemma inv_insert l u s :
  rec_ok env (tick s) u -> inv env s ->
  inv env (set_heap (<[l := u]> (heap s)) s).
Proof.
  intros Hu (Hh & Hr & Hk & Hd). split_inv.
  - destruct (decide (l < length (heap s))) as [Hl|Hl].
    + apply Forall_insert; done.
    + rewrite list_insert_ge by lia. done.
  - by rewrite length_insert.
Qed.

Lemma inv_alloc u s :
  rec_ok env (tick s) u -> inv env s ->
  inv env (set_heap (heap s ++ [u]) s).
Proof.
  intros Hu (Hh & Hr & Hk & Hd). split_inv.
  - apply Forall_app. split; [done | by constructor].
  - eapply Forall_impl; [exact Hr|]. intros kl. rewrite length_app. lia.
Qed.

Lemma inv_set_users us s :
  Forall (fun kl => kl.2 < length (heap s)) us -> NoDup us.*1 ->
  inv env s -> inv env (set_self (bot_set_users us (self s)) s).
Proof. intros Hus Hnd (Hh & Hr & Hk & Hd). by split_inv. Qed.

Lemma inv_set_bot b s :
  _users b = _users (self s) -> inv env s -> inv env (set_self b s).
Proof.
  intros Hb (Hh & Hr & Hk & Hd). split_inv.
  - by rewrite Hb.
  - by rewrite Hb.
Qed.

Lemma inv_set_disk f stored s :
  NoDup stored.*1 -> Forall (fun ku => rec_ok env (tick s) ku.2) stored ->
  inv env s -> inv env (set_disk (<[f := stored]> (disk s)) s).
Proof.
  intros Hn Hs (Hh & Hr & Hk & Hd). split_inv.
  apply map_Forall_insert_2; done.
Qed.

(** Changes outside the store and the ledger. *)
Lemma step_same_store s s' :
  heap s' = heap s -> _users (self s') = _users (self s) ->
  tick s <= tick s' -> step env s s'.
Proof.
  intros Hh Hu Ht. split.
  - split; [done|]. intros l u Hl. exists u. rewrite Hh.
    split; [done | by apply trace_done].
  - intros uid l H. by rewrite Hu.
Qed.

(** One record replaced by a later stage of its history. *)
Lemma step_insert l u u' s s' :
  heap s !! l = Some u ->
  heap s' = <[l := u']> (heap s) ->
  _users (self s') = _users (self s) ->
  rec_trace env (tick s) (tick s') u u' ->
  step env s s'.
Proof.
  intros Hl Hh Hu Htr. split.
  - split; [by eapply trace_le|]. intros l0 u0 Hl0. rewrite Hh.
    destruct (decide (l = l0)) as [->|Hne].
    + exists u'. rewrite list_lookup_insert_eq by (by eapply lookup_lt_Some).
      split; [done|]. congruence.
    + exists u0. rewrite list_lookup_insert_ne by done.
      split; [done|]. apply trace_done. by eapply trace_le.
  - intros uid l0 H. by rewrite Hu.
Qed.

(** New records appended. *)
Lemma evolves_app recs s s' :
  heap s' = heap s ++ recs -> tick s <= tick s' -> evolves env s s'.
Proof.
  intros Hh Ht. split; [done|]. intros l u Hl. exists u. rewrite Hh.
  split; [|by apply trace_done].
  rewrite lookup_app_l; [done | by eapply lookup_lt_Some].
Qed.

(** *** What [set_online] and [set_offline] compute *)

Lemma set_online_run users user_id l u s :
  Dict.get user_id users = Some l -> heap s !! l = Some u ->
  set_online env users user_id s =
  Ok tt (next_tick
           (set_heap (<[l := mkUser (profile u) true
                                    (Some (clock env (tick s))) (total u)
                                    (total_is_float u)]>
                        (heap s)) s)).
Proof.
  intros Hget Hl. pose proof (lookup_lt_Some _ _ _ Hl) as Hlt.
  unfold set_online, getitem, setattr, deref, time_time, bind, modify, ret.
  rewrite Hget. simpl. rewrite Hl. run_store. reflexivity.
Qed.

Lemma set_offline_run users user_id l u t0 s :
  Dict.get user_id users = Some l -> heap s !! l = Some u ->
  first_seen u = Some t0 ->
  set_offline env users user_id s =
  Ok tt (next_tick
           (set_heap (<[l := mkUser (profile u) false None
                                    (total u + (clock env (tick s) - t0))
                                    true]>
                        (heap s)) s)).
Proof.
  intros Hget Hl H0. pose proof (lookup_lt_Some _ _ _ Hl) as Hlt.
  unfold set_offline, getitem, setattr, deref, time_time, elapsed_since,
    bind, modify, ret.
  rewrite Hget. simpl. rewrite Hl. run_store. rewrite H0. run_store.
  reflexivity.
Qed.

Lemma set_offline_untimed users user_id l u s :
  Dict.get user_id users = Some l -> heap s !! l = Some u ->
  first_seen u = None ->
  set_offline env users user_id s =
  Raise TypeError
        (next_tick (set_heap (<[l := with_active false u]> (heap s)) s)).
Proof.
  intros Hget Hl H0. pose proof (lookup_lt_Some _ _ _ Hl) as Hlt.
  unfold set_offline, getitem, setattr, deref, time_time, elapsed_since,
    bind, modify, ret, raise.
  rewrite Hget. simpl. rewrite Hl. run_store. rewrite H0. reflexivity.
Qed.

Lemma set_offline_missing users user_id s :
  Dict.get user_id users = None ->
  set_offline env users user_id s = Raise (KeyError user_id) s.
Proof.
  intros Hget. unfold set_offline, getitem, bind, raise. by rewrite Hget.
Qed.

Lemma set_offline_dangling users user_id l s :
  Dict.get user_id users = Some l -> heap s !! l = None ->
  set_offline env users user_id s = Raise SystemError s.
Proof.
  intros Hget Hl. unfold set_offline, getitem, setattr, deref, bind, ret.
  rewrite Hget. by rewrite Hl.
Qed.

End StoreFacts.

(** ** The operations keep the invariant *)

Section Preservation.
Variable env : Env.

Lemma inv_same_store s s' :
  heap s' = heap s -> _users (self s') = _users (self s) ->
  disk s' = disk s -> tick s <= tick s' -> inv env s -> inv env s'.
Proof.
  intros Hh Hu Hd Ht (H1 & H2 & H3 & H4). unfold inv.
  rewrite Hh, Hu, Hd. split_inv.
  - eapply Forall_impl; [exact H1|]. intros u. by apply rec_ok_later.
  - intros f stored Hf. destruct (H4 f stored Hf) as [Hn Hs].
    split; [done|]. eapply Forall_impl; [exact Hs|].
    intros ku. by apply rec_ok_later.
Qed.

(** A statement that touches neither the store, the ledger nor the
    files. *)
Lemma preserves_outside {A} (c : M A) :
  (forall s, heap (state_of (c s)) = heap s /\
             _users (self (state_of (c s))) = _users (self s) /\
             disk (state_of (c s)) = disk s /\
             tick s <= tick (state_of (c s))) ->
  preserves env (step env) c.
Proof.
  intros H s Hs. destruct (H s) as (Hh & Hu & Hd & Ht). split.
  - by eapply inv_same_store.
  - by apply step_same_store.
Qed.

Lemma preserves_ret {A} (a : A) : preserves env (step env) (ret a).
Proof. apply preserves_outside. intros s. simpl. auto. Qed.

Lemma preserves_gets {A} (f : State -> A) : preserves env (step env) (gets f).
Proof. apply preserves_outside. intros s. simpl. auto. Qed.

Lemma preserves_event_getitem event k :
  preserves env (step env) (event_getitem event k).
Proof.
  apply preserves_outside. intros s. unfold event_getitem.
  destruct (event !! k); simpl; auto.
Qed.

Lemma preserves_deref l : preserves env (step env) (deref l).
Proof.
  apply preserves_outside. intros s. unfold deref.
  destruct (heap s !! l); simpl; auto.
Qed.

Lemma preserves_time_time : preserves env (step env) (time_time env).
Proof. apply preserves_outside. intros s. simpl. auto. Qed.

Lemma preserves_api_is_user_active user_id :
  preserves env (step env) (api_is_user_active env user_id).
Proof.
  apply preserves_outside. intros s. unfold api_is_user_active.
  destruct (users_getPresence env (tick s) user_id); simpl; auto.
Qed.

Lemma preserves_api_get_user_info user_id :
  preserves env (step env) (api_get_user_info env user_id).
Proof.
  apply preserves_outside. intros s. unfold api_get_user_info.
  destruct (users_info env (tick s) user_id); simpl; auto.
Qed.

Lemma preserves_api_get_channel_users channel :
  preserves env (step env) (api_get_channel_users env channel).
Proof.
  apply preserves_outside. intros s. unfold api_get_channel_users.
  destruct (conversations_members env (tick s) channel); simpl; auto.
Qed.

Lemma preserves_api_get_channel name :
  preserves env (step env) (api_get_channel env name).
Proof.
  apply preserves_outside. intros s. unfold api_get_channel.
  destruct (channels_list env (tick s) name); simpl; auto.
Qed.

Lemma preserves_api_send_message channel text :
  preserves env (step env) (api_send_message env channel text).
Proof.
  apply preserves_outside. intros s. unfold api_send_message.
  destruct (chat_postMessage env (tick s) channel text); simpl; auto.
Qed.

Lemma preserves_set_bot (f : Bot -> Bot) :
  (forall b, _users (f b) = _users b) ->
  preserves env (step env) (modify (fun s => set_self (f (self s)) s)).
Proof.
  intros Hf. apply preserves_outside. intros s. simpl. rewrite Hf. auto.
Qed.

Lemma heap_ok l u s : inv env s -> heap s !! l = Some u -> rec_ok env (tick s) u.
Proof.
  intros (Hh & _) Hl. rewrite Forall_forall in Hh. apply Hh.
  apply list_elem_of_lookup. by exists l.
Qed.

Lemma ref_ok user_id l s :
  inv env s -> Dict.get user_id (_users (self s)) = Some l ->
  exists u, heap s !! l = Some u.
Proof.
  intros (_ & Hr & _) Hget. apply DictFacts.get_elem_of in Hget.
  rewrite Forall_forall in Hr. specialize (Hr _ Hget). simpl in Hr.
  by apply lookup_lt_is_Some_2 in Hr as [u Hu]; eauto.
Qed.

(** Closing a session, wherever [set_offline] is called from. *)
Lemma preserves_set_offline users user_id :
  preserves env (step env) (set_offline env users user_id).
Proof.
  intros s Hs. destruct (Dict.get user_id users) as [l|] eqn:Hget.
  2:{ rewrite set_offline_missing by done. simpl.
      split; [done | apply step_refl]. }
  destruct (heap s !! l) as [u|] eqn:Hl.
  2:{ erewrite set_offline_dangling by done. simpl.
      split; [done | apply step_refl]. }
  pose proof (heap_ok _ _ _ Hs Hl) as [Hso Hst].
  destruct (first_seen u) as [t0|] eqn:H0.
  - erewrite set_offline_run by done. simpl. split.
    + apply inv_next_tick. apply inv_insert; [apply rec_ok_fresh | done].
    + eapply step_insert; [exact Hl | done | done |]. simpl.
      eapply trace_offline with (k := tick s); [done | | exact H0 |].
      * apply Hso. by eexists.
      * apply trace_done. lia.
  - erewrite set_offline_untimed by done. simpl.
    assert (active u = false) as Ha.
    { destruct (active u) eqn:Ha; [|done]. unfold session_ok in Hso.
      rewrite H0 in Hso. destruct Hso as [_ Hso].
      destruct (Hso Ha) as [? ?]. done. }
    assert (with_active false u = u) as ->.
    { destruct u; simpl in *. by subst. }
    rewrite list_insert_id by done.
    assert (set_heap (heap s) s = s) as -> by (by destruct s).
    split; [by apply inv_next_tick |].
    apply step_same_store; simpl; auto.
Qed.

(** Opening a session on a record that is not active. *)
Lemma set_online_step users user_id l u s :
  inv env s -> Dict.get user_id users = Some l -> heap s !! l = Some u ->
  active u = false ->
  inv env (state_of (set_online env users user_id s)) /\
  step env s (state_of (set_online env users user_id s)).
Proof.
  intros Hs Hget Hl Ha. erewrite set_online_run by done. simpl. split.
  - pose proof (inv_next_tick _ _ Hs) as Hs'.
    pose proof (inv_insert env l (mkUser (profile u) true
                  (Some (clock env (tick s))) (total u) (total_is_float u))
                  (next_tick s)
                  (rec_ok_opened env (tick s) _ _ _) Hs') as Hi.
    exact Hi.
  - eapply step_insert; [exact Hl | done | done |]. simpl.
    eapply trace_online with (k := tick s); [done | done |].
    apply trace_done. lia.
Qed.

Lemma preserves_update_presence user_id :
  preserves env (step env) (update_presence env user_id).
Proof.
  unfold update_presence.
  apply preserves_bind; [apply step_trans | apply preserves_api_is_user_active |].
  intros is_active s Hs. unfold bind, gets, getitem.
  destruct (Dict.get user_id (_users (self s))) as [l|] eqn:Hget; simpl.
  2:{ split; [done | apply step_refl]. }
  unfold deref. destruct (heap s !! l) as [u|] eqn:Hl; simpl.
  2:{ split; [done | apply step_refl]. }
  destruct is_active, (active u) eqn:Ha; simpl.
  - split; [done | apply step_refl].
  - by eapply set_online_step.
  - by apply preserves_set_offline.
  - split; [done | apply step_refl].
Qed.

(** The new record of [_update_user] and its entry in the ledger. *)
Lemma create_step user_id p s :
  inv env s -> Dict.get user_id (_users (self s)) = None ->
  let s' := set_self (bot_set_users
                        (Dict.set user_id (length (heap s)) (_users (self s)))
                        (self s))
                     (set_heap (heap s ++ [mkUser p false None 0 false]) s) in
  inv env s' /\ step env s s'.
Proof.
  intros Hs Hget s'. split.
  - pose proof (inv_alloc env (mkUser p false None 0 false) s
                  (rec_ok_fresh env _ _ _ _) Hs) as Hi.
    set (s0 := set_heap (heap s ++ [mkUser p false None 0 false]) s) in *.
    change (inv env (set_self
              (bot_set_users
                 (Dict.set user_id (length (heap s)) (_users (self s0)))
                 (self s0)) s0)).
    apply inv_set_users; [| |exact Hi]; simpl.
    + apply DictFacts.Forall_set.
      * simpl. rewrite length_app. simpl. lia.
      * destruct Hi as (_ & Hr & _). exact Hr.
    + apply DictFacts.NoDup_keys_set. by destruct Hs as (_ & _ & Hn & _).
  - split.
    + eapply evolves_app; simpl; done.
    + intros uid l H. simpl. rewrite DictFacts.get_set_ne; [done|].
      intros ->. congruence.
Qed.

Lemma preserves__update_user user_id :
  preserves env (step env) (_update_user env user_id).
Proof.
  intros s Hs. unfold _update_user.
  rewrite (bind_Ok _ _ s (_users (self s)) s) by done.
  destruct (Dict.mem user_id (_users (self s))) eqn:Hmem; simpl.
  { by apply preserves_update_presence. }
  assert (Dict.get user_id (_users (self s)) = None) as Hget.
  { unfold Dict.mem in Hmem. by destruct (Dict.get _ _). }
  destruct (preserves_api_get_user_info user_id s Hs) as [Hi Hr].
  destruct (api_get_user_info env user_id s) as [user s1|e s1] eqn:Hinfo;
    simpl in *.
  2:{ rewrite (bind_Raise _ _ _ _ _ Hinfo). by split. }
  rewrite (bind_Ok _ _ _ _ _ Hinfo).
  destruct (is_bot user); simpl; [by split|].
  assert (_users (self s1) = _users (self s)) as Hu1.
  { unfold api_get_user_info in Hinfo.
    destruct (users_info env (tick s) user_id); by inversion Hinfo. }
  rewrite <- Hu1 in Hget.
  destruct (create_step user_id (info_profile user) s1 Hi Hget) as [Hi2 Hr2].
  unfold bind, alloc, modify. simpl.
  match goal with
  | |- inv env (state_of (update_presence env user_id ?s2)) /\ _ =>
      destruct (preserves_update_presence user_id s2 Hi2) as [Hi3 Hr3]
  end.
  split; [exact Hi3|].
  eapply step_trans; [exact Hr|]. eapply step_trans; [exact Hr2|exact Hr3].
Qed.

Lemma preserves_update_each member_ids :
  preserves env (step env) (update_each env member_ids).
Proof.
  induction member_ids as [|member_id rest IH]; simpl.
  - apply preserves_ret.
  - apply preserves_bind; [apply step_trans | apply preserves__update_user |].
    intros _. exact IH.
Qed.

Lemma preserves__update_all_users :
  preserves env (step env) (_update_all_users env).
Proof.
  unfold _update_all_users.
  apply preserves_bind; [apply step_trans | apply preserves_gets |].
  intros channel.
  apply preserves_bind;
    [apply step_trans | apply preserves_api_get_channel_users |].
  intros member_ids. apply preserves_update_each.
Qed.

End Preservation.

(** ** Copies, files and the commands *)

Section Persistence.
Variable env : Env.

Lemma set_heap_id s : set_heap (heap s) s = s.
Proof. by destruct s. Qed.

Lemma deref_Some l u s : heap s !! l = Some u -> deref l s = Ok u s.
Proof. unfold deref. by intros ->. Qed.

Lemma deref_None l s : heap s !! l = None -> deref l s = Raise SystemError s.
Proof. unfold deref. by intros ->. Qed.

Lemma alloc_run u s :
  alloc u s = Ok (length (heap s)) (set_heap (heap s ++ [u]) s).
Proof. reflexivity. Qed.

(** [deepcopy] appends copies of existing records, and the dict it
    returns holds the same keys with references to the copies. *)
Lemma deepcopy_spec users s :
  exists recs,
    state_of (deepcopy users s) = set_heap (heap s ++ recs) s /\
    Forall (fun u => u ∈ heap s) recs /\
    forall us s', deepcopy users s = Ok us s' ->
      us.*1 = users.*1 /\
      Forall (fun kl => length (heap s) <= kl.2 < length (heap s')) us.
Proof.
  revert s. induction users as [|[k l] rest IH]; intros s.
  - exists []. simpl. rewrite app_nil_r, set_heap_id. split; [done|].
    split; [constructor|]. intros us s' [= <- <-]. split; [done|constructor].
  - cbn [deepcopy]. destruct (heap s !! l) as [u|] eqn:Hl.
    2:{ rewrite (bind_Raise _ _ _ _ _ (deref_None _ _ Hl)).
        exists []. simpl. rewrite app_nil_r, set_heap_id. split; [done|].
        split; [constructor | done]. }
    rewrite (bind_Ok _ _ _ _ _ (deref_Some _ _ _ Hl)).
    rewrite (bind_Ok _ _ _ _ _ (alloc_run u s)).
    set (s1 := set_heap (heap s ++ [u]) s).
    destruct (IH s1) as (recs & Hst & Hin & Hok).
    assert (Forall (fun x => x ∈ heap s) (u :: recs)) as Hall.
    { constructor; [by eapply list_elem_of_lookup_2|].
      eapply Forall_impl; [exact Hin|]. intros x Hx. simpl in Hx.
      apply elem_of_app in Hx as [Hx|Hx]; [done|].
      apply list_elem_of_singleton in Hx. subst x.
      by eapply list_elem_of_lookup_2. }
    exists (u :: recs).
    destruct (deepcopy rest s1) as [us s2|e s2] eqn:Hrest; simpl in Hst.
    + rewrite (bind_Ok _ _ _ _ _ Hrest). simpl. subst s2.
      split; [by rewrite <- app_assoc|]. split; [exact Hall|].
      intros us' s' [= <- <-]. destruct (Hok us _ eq_refl) as [Hk Hr].
      split; [simpl; f_equal; exact Hk|]. constructor; simpl.
      * rewrite !length_app. simpl. lia.
      * eapply Forall_impl; [exact Hr|]. intros kl. simpl.
        rewrite !length_app. simpl. lia.
    + rewrite (bind_Raise _ _ _ _ _ Hrest). simpl. subst s2.
      split; [by rewrite <- app_assoc|]. split; [exact Hall | done].
Qed.

(** [dump] reads the records behind a dict and changes nothing. *)
Lemma dump_spec users s :
  state_of (dump users s) = s /\
  forall stored s', dump users s = Ok stored s' ->
    s' = s /\ stored.*1 = users.*1 /\
    Forall2 (fun kl ku => heap s !! kl.2 = Some ku.2) users stored.
Proof.
  induction users as [|[k l] rest IH].
  - simpl. split; [done|]. intros stored s' [= <- <-].
    by repeat split; constructor.
  - cbn [dump]. destruct (heap s !! l) as [u|] eqn:Hl.
    2:{ rewrite (bind_Raise _ _ _ _ _ (deref_None _ _ Hl)). split; done. }
    rewrite (bind_Ok _ _ _ _ _ (deref_Some _ _ _ Hl)).
    destruct IH as [Hst Hok].
    destruct (dump rest s) as [stored s1|e s1] eqn:Hrest; simpl in Hst.
    + rewrite (bind_Ok _ _ _ _ _ Hrest). simpl. subst s1.
      split; [done|]. intros st s' [= <- <-].
      destruct (Hok stored s eq_refl) as (_ & Hk & Hf).
      split; [done|]. split; [simpl; f_equal; exact Hk|].
      constructor; done.
    + rewrite (bind_Raise _ _ _ _ _ Hrest). simpl. split; done.
Qed.

(** [restore] makes one new record for every saved one. *)
Lemma restore_run stored s :
  restore stored s =
  Ok (zip stored.*1 (seq (length (heap s)) (length stored)))
     (set_heap (heap s ++ stored.*2) s).
Proof.
  revert s. induction stored as [|[k u] rest IH]; intros s; simpl.
  - unfold ret. by rewrite app_nil_r, set_heap_id.
  - unfold bind, alloc. rewrite IH. simpl.
    rewrite length_app. simpl. rewrite Nat.add_1_r.
    by rewrite <- app_assoc.
Qed.

Lemma preserves_save_loop current_users items :
  preserves env (step env) (save_loop env current_users items).
Proof.
  induction items as [|[user_id user] rest IH]; simpl.
  - apply preserves_ret.
  - apply preserves_bind; [apply step_trans | apply preserves_deref |].
    intros u.
    apply preserves_bind; [apply step_trans | | intros _; exact IH].
    destruct (active u); [apply preserves_set_offline | apply preserves_ret].
Qed.

Lemma preserves_db_save filename users :
  NoDup users.*1 -> preserves env (step env) (db_save filename users).
Proof.
  intros Hn s Hs. unfold db_save, bind.
  destruct (dump_spec users s) as [Hst Hok].
  destruct (dump users s) as [stored s1|e s1]; simpl in *.
  - destruct (Hok stored s1 eq_refl) as (-> & Hk & Hf). split.
    + apply inv_set_disk; [by rewrite Hk | | done].
      clear Hk Hok Hn. induction Hf as [|kl ku us st H _ IH]; constructor.
      * by eapply heap_ok.
      * exact IH.
    + apply step_same_store; done.
  - subst s1. split; [done | apply step_refl].
Qed.

Lemma preserves_save : preserves env (step env) (save env).
Proof.
  intros s Hs. unfold save.
  rewrite (bind_Ok _ _ s (_users (self s)) s) by done.
  destruct (deepcopy_spec (_users (self s)) s) as (recs & Hst & Hin & Hok).
  assert (inv env (set_heap (heap s ++ recs) s) /\
          step env s (set_heap (heap s ++ recs) s)) as [Hi1 Hr1].
  { split.
    - destruct Hs as (H1 & H2 & H3 & H4). split_inv.
      + apply Forall_app. split; [done|].
        eapply Forall_impl; [exact Hin|]. intros u Hu.
        rewrite Forall_forall in H1. by apply H1.
      + eapply Forall_impl; [exact H2|]. intros kl. rewrite length_app. lia.
    - split; [by eapply evolves_app | by intros ? ?]. }
  destruct (deepcopy (_users (self s)) s) as [cu s1|e s1] eqn:Hcopy;
    simpl in Hst; subst s1.
  2:{ rewrite (bind_Raise _ _ _ _ _ Hcopy). by split. }
  rewrite (bind_Ok _ _ _ _ _ Hcopy).
  destruct (Hok cu _ eq_refl) as [Hk _].
  assert (NoDup cu.*1) as Hn.
  { rewrite Hk. by destruct Hs as (_ & _ & Hn & _). }
  assert (preserves env (step env)
            (save_loop env cu cu ;;;
             filename <- gets (fun s => _db_filename (self s)) ;;
             db_save filename cu)) as Hrest.
  { apply preserves_bind;
      [apply step_trans | apply preserves_save_loop | intros _].
    apply preserves_bind; [apply step_trans | apply preserves_gets |].
    intros filename. by apply preserves_db_save. }
  destruct (Hrest _ Hi1) as [Hi2 Hr2]. split; [exact Hi2|].
  eapply step_trans; [exact Hr1 | exact Hr2].
Qed.

Lemma preserves_load : preserves env (evolves env) load.
Proof.
  intros s Hs. unfold load, db_load, bind, gets, modify.
  rewrite restore_run. simpl.
  set (stored := default [] (disk s !! _db_filename (self s))).
  assert (NoDup stored.*1 /\
          Forall (fun ku => rec_ok env (tick s) ku.2) stored) as [Hn Hf].
  { subst stored. destruct (disk s !! _db_filename (self s)) eqn:Hd; simpl.
    - destruct Hs as (_ & _ & _ & H4). by apply (H4 _ _ Hd).
    - split; constructor. }
  assert (length stored.*1 = length (seq (length (heap s)) (length stored)))
    as Hlen by (by rewrite length_fmap, length_seq).
  split.
  - destruct Hs as (H1 & H2 & H3 & H4). split_inv.
    + apply Forall_app. split; [done|]. by apply Forall_fmap.
    + apply Forall_forall. intros [k l] Hkl. simpl.
      apply elem_of_zip_r in Hkl. apply elem_of_seq in Hkl.
      rewrite length_app, length_fmap. lia.
    + by rewrite fst_zip by lia.
  - eapply evolves_app; simpl; done.
Qed.

Lemma preserves_live_total u : preserves env (step env) (live_total env u).
Proof.
  apply preserves_outside. intros s. unfold live_total, bind, time_time.
  destruct (active u); simpl; [|auto].
  unfold elapsed_since. destruct (first_seen u); simpl; auto.
Qed.

Lemma preserves_scores_loop items scores :
  preserves env (step env) (scores_loop env items scores).
Proof.
  revert scores. induction items as [|[user_id user] rest IH]; intros scores;
    simpl.
  - apply preserves_ret.
  - apply preserves_bind; [apply step_trans | apply preserves_deref |].
    intros u.
    apply preserves_bind; [apply step_trans | apply preserves_live_total |].
    intros n. apply IH.
Qed.

Lemma evolves_of_step s s' : step env s s' -> evolves env s s'.
Proof. by intros [? _]. Qed.

Lemma preserves__handle_command event command args :
  preserves env (evolves env) (_handle_command env event command args).
Proof.
  unfold _handle_command.
  destruct (_ || _).
  { apply (preserves_weaken env (step env)); [apply evolves_of_step|].
    apply preserves_bind;
      [apply step_trans | apply preserves_event_getitem |].
    intros channel. apply preserves_api_send_message. }
  destruct (String.eqb (Str.lower command) "scores").
  { apply (preserves_weaken env (step env)); [apply evolves_of_step|].
    apply preserves_bind; [apply step_trans | apply preserves_gets |].
    intros users.
    apply preserves_bind; [apply step_trans | apply preserves_scores_loop |].
    intros scores.
    apply preserves_bind;
      [apply step_trans | apply preserves_event_getitem |].
    intros channel. apply preserves_api_send_message. }
  destruct (String.eqb (Str.lower command) "save").
  { apply (preserves_weaken env (step env)); [apply evolves_of_step|].
    apply preserves_save. }
  destruct (String.eqb (Str.lower command) "load").
  { apply preserves_bind; [apply evolves_trans | apply preserves_load |].
    intros _.
    apply (preserves_weaken env (step env)); [apply evolves_of_step|].
    apply preserves__update_all_users. }
  apply (preserves_weaken env (step env)); [apply evolves_of_step|].
  apply preserves_ret.
Qed.

Lemma preserves__handle_message event :
  preserves env (evolves env) (_handle_message env event).
Proof.
  unfold _handle_message.
  apply preserves_bind; [apply evolves_trans | |].
  { apply (preserves_weaken env (step env)); [apply evolves_of_step|].
    apply preserves_event_getitem. }
  intros text.
  apply preserves_bind; [apply evolves_trans | |].
  { apply (preserves_weaken env (step env)); [apply evolves_of_step|].
    apply preserves_gets. }
  intros id.
  assert (forall A (a : A), preserves env (evolves env) (ret a)) as Hret.
  { intros A a. apply (preserves_weaken env (step env));
      [apply evolves_of_step | apply preserves_ret]. }
  destruct (Str.startswith _ _); [|apply Hret].
  destruct (1 <? _); [|apply Hret].
  destruct (_ !! 1).
  - apply preserves__handle_command.
  - intros s Hs. simpl. split; [done | apply evolves_refl].
Qed.

Lemma preserves__handle_event event :
  preserves env (evolves env) (_handle_event env event).
Proof.
  unfold _handle_event.
  apply preserves_bind; [apply evolves_trans | |].
  { apply (preserves_weaken env (step env)); [apply evolves_of_step|].
    apply preserves_event_getitem. }
  intros type.
  destruct (String.eqb type "message"); [apply preserves__handle_message|].
  apply (preserves_weaken env (step env)); [apply evolves_of_step|].
  destruct (String.eqb type "presence_change"); [|apply preserves_ret].
  unfold _handle_presence_change.
  apply preserves_bind; [apply step_trans | apply preserves_event_getitem |].
  intros user_id. apply preserves__update_user.
Qed.



Lemma preserves__post_connection_init :
  preserves env (step env) (_post_connection_init env).
Proof.
  unfold _post_connection_init.
  apply preserves_bind; [apply step_trans | apply preserves_ret |].
  intros self_user.
  apply preserves_bind; [apply step_trans | by apply preserves_set_bot |].
  intros _.
  apply preserves_bind; [apply step_trans | apply preserves_gets |].
  intros name.
  apply preserves_bind; [apply step_trans | apply preserves_api_get_channel |].
  intros channel.
  apply preserves_bind; [apply step_trans | by apply preserves_set_bot |].
  intros _. apply preserves__update_all_users.
Qed.

(** A new process starts from a well-formed state. *)
Lemma inv___init__ channel filename files now :
  map_Forall (fun _ stored =>
                NoDup stored.*1 /\
                Forall (fun ku => rec_ok env now ku.2) stored) files ->
  inv env (__init__ channel filename files now).
Proof.
  intros Hd. unfold __init__. apply preserves_load. split_inv; constructor.
Qed.

End Persistence.

(** ** Reachable states *)

Section Reachable.
Variable env : Env.

Lemma preserves_run_op o : preserves env (evolves env) (run_op env o).
Proof.
  assert (forall c : M unit, preserves env (step env) c ->
                             preserves env (evolves env) c) as Hw.
  { intros c. apply preserves_weaken, evolves_of_step. }
  destruct o; simpl.
  - apply Hw, preserves__post_connection_init.
  - apply preserves__handle_event.
  - apply Hw, preserves__update_user.
  - apply Hw, preserves__update_all_users.
  - apply Hw, preserves_save.
  - apply preserves_load.
Qed.

Lemma reachable_inv s : reachable env s -> inv env s.
Proof.
  induction 1 as [channel filename now | s channel filename _ IH | s o _ IH].
  - apply inv___init__. apply map_Forall_empty.
  - apply inv___init__. by destruct IH as (_ & _ & _ & Hd).
  - by apply preserves_run_op.
Qed.

Lemma inv_set_online users user_id s :
  inv env s ->
  inv env (state_of (set_online env users user_id s)) /\
  length (heap (state_of (set_online env users user_id s)))
  = length (heap s).
Proof.
  intros Hs. destruct (Dict.get user_id users) as [l|] eqn:Hget.
  2:{ unfold set_online, getitem. rewrite Hget. done. }
  destruct (heap s !! l) as [u|] eqn:Hl.
  - erewrite set_online_run by done. simpl.
    pose proof (inv_next_tick _ _ Hs) as Hs'. split.
    + exact (inv_insert env l _ (next_tick s)
                        (rec_ok_opened env (tick s) _ _ _) Hs').
    + by rewrite length_insert.
  - unfold set_online, getitem. rewrite Hget.
    rewrite (bind_Ok _ _ s l s) by done. unfold setattr.
    rewrite (bind_Raise _ _ _ _ _
               (bind_Raise _ _ _ _ _ (deref_None _ _ Hl))). done.
Qed.

Lemma inv_ledger s user_id l :
  inv env s -> Dict.get user_id (_users (self s)) = Some l ->
  exists u, heap s !! l = Some u /\ session_ok u.
Proof.
  intros Hs Hget. destruct (ref_ok env _ _ _ Hs Hget) as [u Hl].
  exists u. split; [done|]. by destruct (heap_ok env _ _ _ Hs Hl).
Qed.

End Reachable.

(** ** The claims *)

(** C3. In every reachable state, every user record of the ledger has a
    session start exactly when it is active.  This holds of the record that
    [_update_user] creates, and it still holds after any operation of the
    bot, and after a call of [set_online] or of [set_offline] on the
    ledger. *)
Theorem session_start_iff_active (env : Env) (s : State) :
  reachable env s ->
  (forall p, session_ok (mkUser p false None 0 false)) /\
  (forall user_id l,
      Dict.get user_id (_users (self s)) = Some l ->
      exists u, heap s !! l = Some u /\
                (is_Some (first_seen u) <-> active u = true)) /\
  (forall o user_id l,
      Dict.get user_id (_users (self (state_of (run_op env o s)))) = Some l ->
      exists u, heap (state_of (run_op env o s)) !! l = Some u /\
                (is_Some (first_seen u) <-> active u = true)) /\
  (forall who user_id l,
      Dict.get user_id (_users (self s)) = Some l ->
      (exists u, heap (state_of (set_online env (_users (self s)) who s)) !! l
                 = Some u /\
                 (is_Some (first_seen u) <-> active u = true)) /\
      (exists u, heap (state_of (set_offline env (_users (self s)) who s)) !! l
                 = Some u /\
                 (is_Some (first_seen u) <-> active u = true))).
Proof.
  intros Hreach. pose proof (reachable_inv env s Hreach) as Hs.
  split; [|split; [|split]].
  - intros p. by destruct (rec_ok_fresh env 0 p 0 false).
  - intros user_id l. by apply (inv_ledger env).
  - intros o user_id l. apply (inv_ledger env).
    apply reachable_inv. by constructor.
  - intros who user_id l Hget.
    assert (forall s', inv env s' -> l < length (heap s') ->
              exists u, heap s' !! l = Some u /\ session_ok u) as Hcell.
    { intros s' Hs' Hlt. apply lookup_lt_is_Some_2 in Hlt as [u Hu].
      exists u. split; [done|]. by destruct (heap_ok env _ _ _ Hs' Hu). }
    destruct (ref_ok env _ _ _ Hs Hget) as [u Hl]. split.
    + destruct (inv_set_online env (_users (self s)) who s Hs) as [Hi Hlen].
      apply Hcell; [done|]. rewrite Hlen. by eapply lookup_lt_Some.
    + destruct (preserves_set_offline env (_users (self s)) who s Hs)
        as [Hi [[_ He] _]].
      destruct (He l u Hl) as (u' & Hl' & _).
      apply Hcell; [done|]. by eapply lookup_lt_Some.
Qed.

Lemma session_start_iff_active_witness :
  reachable Scenario.env0 Scenario.connected /\
  exists u, heap Scenario.connected !! 0 = Some u /\
            (is_Some (first_seen u) <-> active u = true).
Proof.
  assert (reachable Scenario.env0 Scenario.connected) as Hreach.
  { exact (reach_op Scenario.env0 Scenario.started OpConnect
                    (reach_start Scenario.env0 "general" "idlerpg.db" 0)). }
  split; [exact Hreach|].
  refine (proj1 (proj2 (session_start_iff_active
                          Scenario.env0 Scenario.connected Hreach)) "U1" 0 _).
  vm_compute. reflexivity.
Defined.

(** ** One presence notification for a known user *)

Section Presence.
Variable env : Env.

Lemma update_user_present user_id l u b s :
  Dict.get user_id (_users (self s)) = Some l ->
  heap s !! l = Some u ->
  users_getPresence env (tick s) user_id = Some b ->
  _update_user env user_id s =
  (if b
   then (if negb (active u)
         then set_online env (_users (self s)) user_id else ret tt)
   else (if active u
         then set_offline env (_users (self s)) user_id else ret tt))
    (next_tick s).
Proof.
  intros Hget Hl Hb. unfold _update_user.
  rewrite (bind_Ok _ _ s (_users (self s)) s) by done.
  unfold Dict.mem. rewrite Hget. simpl. unfold update_presence.
  assert (api_is_user_active env user_id s = Ok b (next_tick s)) as Hapi.
  { unfold api_is_user_active. by rewrite Hb. }
  rewrite (bind_Ok _ _ _ _ _ Hapi).
  rewrite (bind_Ok _ _ (next_tick s) (_users (self s)) (next_tick s)) by done.
  assert (getitem (_users (self s)) user_id (next_tick s)
          = Ok l (next_tick s)) as Hitem.
  { unfold getitem. by rewrite Hget. }
  rewrite (bind_Ok _ _ _ _ _ Hitem).
  rewrite (bind_Ok _ _ (next_tick s) u (next_tick s)); [done|].
  by apply deref_Some.
Qed.

(** The notification repeats what the record says: nothing changes. *)
Lemma update_user_same user_id l u s :
  Dict.get user_id (_users (self s)) = Some l ->
  heap s !! l = Some u ->
  users_getPresence env (tick s) user_id = Some (active u) ->
  _update_user env user_id s = Ok tt (next_tick s).
Proof.
  intros Hget Hl Hb. rewrite (update_user_present _ _ _ _ _ Hget Hl Hb).
  by destruct (active u).
Qed.

(** Going online. *)
Lemma update_user_online user_id l u s :
  Dict.get user_id (_users (self s)) = Some l ->
  heap s !! l = Some u -> active u = false ->
  users_getPresence env (tick s) user_id = Some true ->
  _update_user env user_id s =
  Ok tt (mkState (self s)
                 (<[l := mkUser (profile u) true
                                (Some (clock env (S (tick s)))) (total u)
                                (total_is_float u)]>
                    (heap s))
                 (disk s) (sent s) (S (S (tick s)))).
Proof.
  intros Hget Hl Ha Hb. rewrite (update_user_present _ _ _ _ _ Hget Hl Hb).
  rewrite Ha. simpl.
  by rewrite (set_online_run env _ _ l u (next_tick s)).
Qed.

(** Going offline. *)
Lemma update_user_offline user_id l u t0 s :
  Dict.get user_id (_users (self s)) = Some l ->
  heap s !! l = Some u -> active u = true -> first_seen u = Some t0 ->
  users_getPresence env (tick s) user_id = Some false ->
  _update_user env user_id s =
  Ok tt (mkState (self s)
                 (<[l := mkUser (profile u) false None
                                (total u + (clock env (S (tick s)) - t0))
                                true]>
                    (heap s))
                 (disk s) (sent s) (S (S (tick s)))).
Proof.
  intros Hget Hl Ha H0 Hb. rewrite (update_user_present _ _ _ _ _ Hget Hl Hb).
  rewrite Ha.
  by rewrite (set_offline_run env _ _ l u t0 (next_tick s)).
Qed.

(** After a notification that returned, the record says what the
    notification said. *)
Lemma update_user_active user_id l u b s s' :
  Dict.get user_id (_users (self s)) = Some l ->
  heap s !! l = Some u ->
  users_getPresence env (tick s) user_id = Some b ->
  _update_user env user_id s = Ok tt s' ->
  Dict.get user_id (_users (self s')) = Some l /\
  exists u', heap s' !! l = Some u' /\ active u' = b.
Proof.
  intros Hget Hl Hb Hrun. pose proof (lookup_lt_Some _ _ _ Hl) as Hlt.
  destruct b, (active u) eqn:Ha.
  - rewrite (update_user_same _ _ _ _ Hget Hl) in Hrun by (by rewrite Ha).
    injection Hrun as <-. simpl. split; [done|]. by exists u.
  - rewrite (update_user_online _ _ _ _ Hget Hl Ha Hb) in Hrun.
    injection Hrun as <-. simpl. split; [done|]. eexists.
    rewrite list_lookup_insert_eq by done. done.
  - destruct (first_seen u) as [t0|] eqn:H0.
    + rewrite (update_user_offline _ _ _ _ _ Hget Hl Ha H0 Hb) in Hrun.
      injection Hrun as <-. simpl. split; [done|]. eexists.
      rewrite list_lookup_insert_eq by done. done.
    + rewrite (update_user_present _ _ _ _ _ Hget Hl Hb) in Hrun.
      rewrite Ha in Hrun.
      by rewrite (set_offline_untimed env _ _ l u (next_tick s)) in Hrun.
  - rewrite (update_user_same _ _ _ _ Hget Hl) in Hrun by (by rewrite Ha).
    injection Hrun as <-. simpl. split; [done|]. by exists u.
Qed.


End Presence.

(** ** Sessions in a row, in double precision *)

Section DoublePrecision.
Import PrimFloat Binary64.
Local Open Scope b64_scope.
Variable env : Binary64.Env.

Lemma b64_bind_Ok {A B} (c : M A) (k : A -> M B) s a s' :
  c s = Ok a s' -> bind c k s = k a s'.
Proof. intros H. unfold bind. by rewrite H. Qed.

Lemma b64_setattr_run user_id f u s :
  Dict.get user_id (_users s) = Some u ->
  setattr user_id f s
  = Ok tt (mkState (Dict.set user_id (f u) (_users s)) (tick s)).
Proof. intros H. unfold setattr, bind, getitem. by rewrite H. Qed.

Lemma b64_getitem_run user_id u s :
  Dict.get user_id (_users s) = Some u -> getitem user_id s = Ok u s.
Proof. intros H. unfold getitem. by rewrite H. Qed.

Lemma b64_set_online_run user_id u s :
  Dict.get user_id (_users s) = Some u ->
  set_online env user_id s
  = Ok tt (mkState
             (Dict.set user_id
                       (mkUser (profile u) true (Some (clock env (tick s)))
                               (total u))
                       (_users s))
             (S (tick s))).
Proof.
  intros H. unfold set_online.
  rewrite (b64_bind_Ok _ _ _ _ _ (b64_setattr_run _ (with_active true) _ _ H)).
  set (s1 := mkState (Dict.set user_id (with_active true u) (_users s))
                     (tick s)).
  rewrite (b64_bind_Ok _ _ s1 (clock env (tick s)) (next_tick s1)) by done.
  rewrite (b64_setattr_run _ _ (with_active true u))
    by apply DictFacts.get_set_eq.
  simpl. by rewrite DictFacts.set_set.
Qed.

Lemma b64_set_offline_run user_id u t0 s :
  Dict.get user_id (_users s) = Some u -> first_seen u = Some t0 ->
  set_offline env user_id s
  = Ok tt (mkState
             (Dict.set user_id
                       (mkUser (profile u) false None
                               (total u + (clock env (tick s) - t0))%float)
                       (_users s))
             (S (tick s))).
Proof.
  intros H H0. unfold set_offline.
  rewrite (b64_bind_Ok _ _ _ _ _ (b64_setattr_run _ (with_active false) _ _ H)).
  set (u1 := with_active false u).
  set (s1 := mkState (Dict.set user_id u1 (_users s)) (tick s)).
  assert (Dict.get user_id (_users s1) = Some u1) as H1
      by apply DictFacts.get_set_eq.
  rewrite (b64_bind_Ok _ _ _ _ _ (b64_getitem_run _ _ _ H1)).
  rewrite (b64_bind_Ok _ _ s1 (clock env (tick s)) (next_tick s1)) by done.
  rewrite (b64_bind_Ok _ _ _ _ _ (b64_getitem_run _ _ (next_tick s1) H1)).
  change (first_seen u1) with (first_seen u). rewrite H0.
  rewrite (b64_bind_Ok _ _ (next_tick s1)
             (clock env (tick s) - t0)%float (next_tick s1)) by done.
  rewrite (b64_bind_Ok _ _ _ _ _
             (b64_setattr_run _ (with_total _) _ (next_tick s1) H1)).
  rewrite (b64_setattr_run _ _ (with_total (total u1 + (clock env (tick s) - t0)) u1))
    by apply DictFacts.get_set_eq.
  simpl. by rewrite !DictFacts.set_set.
Qed.

Lemma b64_update_user_run user_id u s :
  Dict.get user_id (_users s) = Some u ->
  _update_user env user_id s = update_presence env user_id s.
Proof.
  intros H. unfold _update_user.
  rewrite (b64_bind_Ok _ _ s (_users s) s) by done.
  unfold Dict.mem. by rewrite H.
Qed.

Lemma b64_update_presence_run user_id u b s :
  Dict.get user_id (_users s) = Some u ->
  users_getPresence env (tick s) user_id = Some b ->
  update_presence env user_id s
  = (if b
     then (if negb (active u) then set_online env user_id else ret tt)
     else (if active u then set_offline env user_id else ret tt))
      (next_tick s).
Proof.
  intros H Hb. unfold update_presence.
  rewrite (b64_bind_Ok _ _ s b (next_tick s))
    by (unfold api_is_user_active; by rewrite Hb).
  by rewrite (b64_bind_Ok _ _ _ _ _ (b64_getitem_run _ _ (next_tick s) H)).
Qed.

(** A notification that says what the record says changes nothing. *)
Lemma b64_update_same user_id u s :
  Dict.get user_id (_users s) = Some u ->
  users_getPresence env (tick s) user_id = Some (active u) ->
  _update_user env user_id s = Ok tt (next_tick s).
Proof.
  intros H Hb. rewrite (b64_update_user_run _ _ _ H).
  rewrite (b64_update_presence_run _ _ _ _ H Hb).
  by destruct (active u).
Qed.

Lemma b64_update_online user_id u s :
  Dict.get user_id (_users s) = Some u -> active u = false ->
  users_getPresence env (tick s) user_id = Some true ->
  _update_user env user_id s
  = Ok tt (mkState
             (Dict.set user_id
                       (mkUser (profile u) true
                               (Some (clock env (S (tick s)))) (total u))
                       (_users s))
             (S (S (tick s)))).
Proof.
  intros H Ha Hb. rewrite (b64_update_user_run _ _ _ H).
  rewrite (b64_update_presence_run _ _ _ _ H Hb). rewrite Ha. simpl.
  by rewrite (b64_set_online_run _ u (next_tick s)).
Qed.

Lemma b64_update_offline user_id u t0 s :
  Dict.get user_id (_users s) = Some u ->
  active u = true -> first_seen u = Some t0 ->
  users_getPresence env (tick s) user_id = Some false ->
  _update_user env user_id s
  = Ok tt (mkState
             (Dict.set user_id
                       (mkUser (profile u) false None
                               (total u + (clock env (S (tick s)) - t0))%float)
                       (_users s))
             (S (S (tick s)))).
Proof.
  intros H Ha H0 Hb. rewrite (b64_update_user_run _ _ _ H).
  rewrite (b64_update_presence_run _ _ _ _ H Hb). rewrite Ha.
  by rewrite (b64_set_offline_run _ u t0 (next_tick s)).
Qed.

(** After a notification that returns, the record says what the
    notification said. *)
Lemma b64_update_active user_id u b s s1 :
  Dict.get user_id (_users s) = Some u ->
  users_getPresence env (tick s) user_id = Some b ->
  _update_user env user_id s = Ok tt s1 ->
  exists u1, Dict.get user_id (_users s1) = Some u1 /\ active u1 = b.
Proof.
  intros H Hb Hrun.
  destruct (Bool.bool_dec (active u) b) as [Heq|Hne].
  - rewrite (b64_update_same _ u) in Hrun by (by rewrite ?Heq).
    injection Hrun as <-. by exists u.
  - destruct b.
    + apply Bool.not_true_is_false in Hne.
      rewrite (b64_update_online _ u) in Hrun by done.
      injection Hrun as <-. eexists. split; [apply DictFacts.get_set_eq|done].
    + apply Bool.not_false_is_true in Hne.
      destruct (first_seen u) as [t0|] eqn:H0.
      * rewrite (b64_update_offline _ u t0) in Hrun by done.
        injection Hrun as <-. eexists.
        split; [apply DictFacts.get_set_eq|done].
      * rewrite (b64_update_user_run _ _ _ H) in Hrun.
        rewrite (b64_update_presence_run _ _ _ _ H Hb) in Hrun.
        rewrite Hne in Hrun. unfold set_offline in Hrun.
        rewrite (b64_bind_Ok _ _ _ _ _
                   (b64_setattr_run _ (with_active false) _ (next_tick s) H))
          in Hrun.
        unfold bind, getitem, time_time, elapsed_since in Hrun. simpl in Hrun.
        repeat (rewrite DictFacts.get_set_eq in Hrun; simpl in Hrun).
        rewrite H0 in Hrun. done.
Qed.

(** [n] sessions in a row, from a record that is not active. *)
Lemma b64_alternating_run user_id n : forall s u,
  Dict.get user_id (_users s) = Some u -> active u = false ->
  (forall i, i < 2 * n ->
             users_getPresence env (tick s + 2 * i) user_id
             = Some (Nat.even i)) ->
  exists s' u',
    repeat_update env user_id (2 * n) s = Ok tt s' /\
    Dict.get user_id (_users s') = Some u' /\
    active u' = false /\
    (0 < n -> first_seen u' = None) /\
    total u' = accumulate (total u) (sessions env (tick s) n).
Proof.
  induction n as [|n IH]; intros s u Hget Ha Hp.
  - exists s, u. repeat split; try done. lia.
  - replace (2 * S n) with (S (S (2 * n))) by lia.
    assert (users_getPresence env (tick s) user_id = Some true) as Hp0.
    { specialize (Hp 0). rewrite Nat.add_0_r in Hp. apply Hp. lia. }
    pose proof (b64_update_online _ _ _ Hget Ha Hp0) as Hon.
    set (u1 := mkUser (profile u) true (Some (clock env (S (tick s))))
                      (total u)) in *.
    set (s1 := mkState (Dict.set user_id u1 (_users s)) (S (S (tick s)))) in *.
    assert (Dict.get user_id (_users s1) = Some u1) as Hget1
        by apply DictFacts.get_set_eq.
    assert (users_getPresence env (tick s1) user_id = Some false) as Hp1.
    { specialize (Hp 1). simpl.
      replace (S (S (tick s))) with (tick s + 2 * 1) by lia.
      apply Hp. lia. }
    pose proof (b64_update_offline _ u1 _ s1 Hget1 eq_refl eq_refl Hp1) as Hoff.
    simpl in Hoff. rewrite DictFacts.set_set in Hoff.
    set (u2 := mkUser (profile u) false None
                      (total u + (clock env (S (S (S (tick s))))
                                  - clock env (S (tick s))))%float) in *.
    set (s2 := mkState (Dict.set user_id u2 (_users s))
                       (S (S (S (S (tick s)))))) in *.
    cbn [repeat_update].
    rewrite (b64_bind_Ok _ _ _ _ _ Hon), (b64_bind_Ok _ _ _ _ _ Hoff).
    destruct (IH s2 u2) as (s' & u' & Hrun & Hget' & Ha' & Hf' & Htot).
    + apply DictFacts.get_set_eq.
    + done.
    + intros i Hi. change (tick s2) with (S (S (S (S (tick s))))).
      replace (S (S (S (S (tick s)))) + 2 * i) with (tick s + 2 * (S (S i)))
        by lia.
      rewrite Hp by lia. done.
    + exists s', u'. split; [exact Hrun|]. split; [done|]. split; [done|].
      split.
      * intros _. destruct n; [|apply Hf'; lia].
        simpl in Hrun. injection Hrun as <-. simpl in Hget'.
        rewrite DictFacts.get_set_eq in Hget'. by injection Hget' as <-.
      * rewrite Htot. cbn [sessions]. unfold accumulate. cbn [foldl].
        replace (tick s + 1) with (S (tick s)) by lia.
        replace (tick s + 3) with (S (S (S (tick s)))) by lia.
        replace (tick s + 4) with (S (S (S (S (tick s))))) by lia.
        done.
Qed.

End DoublePrecision.
(** C1, as the code has it.  For a user of the ledger whose record is not
    active, [2 * n] notifications that say active, inactive, active, ... in
    turn leave a record that is not active, whose total, which is also its
    live total at any later time, is what the total before becomes when
    the sessions are taken in turn and the difference of the two clock
    readings of each is added to it, every subtraction and every addition
    being the machine's and rounded as such.  And when two notifications
    in a row say the same, the second one leaves the ledger as it is. *)
Theorem no_double_counting (env : Binary64.Env) (user_id : string)
        (u : Binary64.User) (s : Binary64.State) :
  Dict.get user_id (Binary64._users s) = Some u ->
  (Binary64.active u = false ->
   forall n,
     (forall i, i < 2 * n ->
                Binary64.users_getPresence env (Binary64.tick s + 2 * i) user_id
                = Some (Nat.even i)) ->
     exists s' u',
       Binary64.repeat_update env user_id (2 * n) s = Binary64.Ok tt s' /\
       Dict.get user_id (Binary64._users s') = Some u' /\
       Binary64.active u' = false /\
       Binary64.total u'
       = Binary64.accumulate (Binary64.total u)
                             (Binary64.sessions env (Binary64.tick s) n) /\
       forall now, Binary64.liveTotal u' now = Binary64.total u') /\
  (forall b s1,
      Binary64.users_getPresence env (Binary64.tick s) user_id = Some b ->
      Binary64._update_user env user_id s = Binary64.Ok tt s1 ->
      Binary64.users_getPresence env (Binary64.tick s1) user_id = Some b ->
      Binary64._update_user env user_id s1
      = Binary64.Ok tt (Binary64.next_tick s1)).
Proof.
  intros Hget. split.
  - intros Ha n Hp.
    destruct (b64_alternating_run env user_id n s u Hget Ha Hp)
      as (s' & u' & Hrun & Hget' & Ha' & _ & Htot).
    exists s', u'. split; [done|]. split; [done|]. split; [done|].
    split; [done|].
    intros now. unfold Binary64.liveTotal. by rewrite Ha'.
  - intros b s1 Hb Hrun Hb1.
    destruct (b64_update_active env _ _ _ _ _ Hget Hb Hrun)
      as (u1 & Hget1 & Ha1).
    apply (b64_update_same env _ u1); [done | by rewrite Ha1].
Qed.

Lemma no_double_counting_witness :
  (exists s' u',
      Binary64.repeat_update Binary64.env_steady "U1" (2 * 2) Binary64.start
      = Binary64.Ok tt s' /\
      Dict.get "U1" (Binary64._users s') = Some u' /\
      Binary64.active u' = false /\
      Binary64.sessions Binary64.env_steady 0 2
      = [(1.5, 4.5); (7.5, 10.5)]%float /\
      Binary64.total u' = 6%float) /\
  (let s1 := Binary64.state_of
               (Binary64._update_user Binary64.env_on "U1" Binary64.start) in
   Dict.get "U1" (Binary64._users s1)
   = Some (Binary64.mkUser Scenario.ann true (Some 1.5%float) 0%float) /\
   Binary64._update_user Binary64.env_on "U1" s1
   = Binary64.Ok tt (Binary64.next_tick s1)).
Proof.
  split.
  - destruct (proj1 (no_double_counting Binary64.env_steady "U1" Binary64.ann
                       Binary64.start eq_refl) eq_refl 2)
      as (s' & u' & H1 & H2 & H3 & H4 & _).
    { intros i Hi. destruct i as [|[|[|[|i]]]]; try reflexivity. lia. }
    exists s', u'. split; [exact H1|]. split; [exact H2|]. split; [exact H3|].
    split; [vm_compute; reflexivity|]. rewrite H4. vm_compute. reflexivity.
  - cbv zeta. split; [vm_compute; reflexivity|].
    apply (proj2 (no_double_counting Binary64.env_on "U1" Binary64.ann
                    Binary64.start eq_refl) true).
    + reflexivity.
    + vm_compute. reflexivity.
    + reflexivity.
Defined.

(** C1 fails as stated: with a clock that never goes back and reads 1,
    2^53, 2^53 and 2^53 + 2 at the four transitions, the two sessions last
    2^53 - 1 and 2 seconds, 2^53 + 1 in all, which no float holds; the
    total after them is 2^53. *)
Lemma exact_sum_fails :
  (forall i j, i <= j ->
               PrimFloat.leb (Binary64.clock Binary64.env_late i)
                             (Binary64.clock Binary64.env_late j) = true) /\
  exists s' u',
    Binary64.repeat_update Binary64.env_late "U1" (2 * 2) Binary64.start
    = Binary64.Ok tt s' /\
    Dict.get "U1" (Binary64._users s') = Some u' /\
    Binary64.sessions Binary64.env_late 0 2
    = [(1, 9007199254740992); (9007199254740992, 9007199254740994)]%float /\
    Binary64.exact_sum (Binary64.sessions Binary64.env_late 0 2)
    = Some 9007199254740993%Z /\
    Binary64.whole (Binary64.liveTotal u' 9007199254740994%float)
    = Some 9007199254740992%Z.
Proof.
  split.
  - intros i j Hij. unfold Binary64.env_late, Binary64.clock.
    destruct (Nat.ltb_spec i 2), (Nat.ltb_spec j 2), (Nat.ltb_spec i 6),
      (Nat.ltb_spec j 6); try lia; reflexivity.
  - eexists. eexists. split; [vm_compute; reflexivity|].
    split; [vm_compute; reflexivity|].
    split; [vm_compute; reflexivity|].
    split; vm_compute; reflexivity.
Qed.


(** C6. When Slack flags an identity as a bot each time its profile is
    fetched, and the ledger has no record under it, any number of calls of
    [_update_user] for it, returning or raising, leave the ledger, the store
    and the files as they are: no record is ever created. *)
Theorem bot_never_admitted (env : Env) (user_id : string) :
  (forall t info, users_info env t user_id = Some info -> is_bot info = true) ->
  forall n s,
    Dict.get user_id (_users (self s)) = None ->
    let s' := state_of (repeat_update env user_id n s) in
    self s' = self s /\ heap s' = heap s /\ disk s' = disk s /\
    Dict.get user_id (_users (self s')) = None.
Proof.
  intros Hbot n. induction n as [|n IH]; intros s Hget; simpl.
  - done.
  - assert (_update_user env user_id s = Ok tt (next_tick s) \/
            _update_user env user_id s = Raise RuntimeError (next_tick s))
      as [Hrun|Hrun].
    { unfold _update_user.
      rewrite (bind_Ok _ _ s (_users (self s)) s) by done.
      unfold Dict.mem. rewrite Hget. simpl.
      unfold bind, api_get_user_info.
      destruct (users_info env (tick s) user_id) as [info|] eqn:Hinfo.
      - rewrite (Hbot _ _ Hinfo). by left.
      - by right. }
    + rewrite (bind_Ok _ _ _ _ _ Hrun).
      destruct (IH (next_tick s) Hget) as (H1 & H2 & H3 & H4). done.
    + rewrite (bind_Raise _ _ _ _ _ Hrun). done.
Qed.

Lemma bot_never_admitted_witness :
  let s' := state_of (repeat_update Scenario.env0 "B1" 3 Scenario.connected) in
  self s' = self Scenario.connected /\ heap s' = heap Scenario.connected /\
  disk s' = disk Scenario.connected /\
  Dict.get "B1" (_users (self s')) = None.
Proof.
  apply (bot_never_admitted Scenario.env0 "B1").
  - intros t info [= <-]. reflexivity.
  - vm_compute. reflexivity.
Defined.

(** C7, as the code has it.  An event whose type is neither [message] nor
    [presence_change] is dropped: the handler returns and the state is what
    it was, with nothing posted.  An event with no type, a message with no
    text and a presence change with no user make the handler raise
    [KeyError], the state being what it was. *)
Theorem unknown_event_dropped (env : Env) (event : Event) (s : State) :
  (forall type,
      event !! "type" = Some type ->
      type <> "message" -> type <> "presence_change" ->
      _handle_event env event s = Ok tt s) /\
  (event !! "type" = None ->
   _handle_event env event s = Raise (KeyError "type") s) /\
  (event !! "type" = Some "message" -> event !! "text" = None ->
   _handle_event env event s = Raise (KeyError "text") s) /\
  (event !! "type" = Some "presence_change" -> event !! "user" = None ->
   _handle_event env event s = Raise (KeyError "user") s).
Proof.
  unfold _handle_event, event_getitem, bind. repeat split.
  - intros type -> Hm Hp. simpl.
    apply String.eqb_neq in Hm, Hp. by rewrite Hm, Hp.
  - by intros ->.
  - intros -> Ht. simpl. unfold _handle_message, event_getitem, bind.
    by rewrite Ht.
  - intros -> Hu. simpl.
    unfold _handle_presence_change, event_getitem, bind. by rewrite Hu.
Qed.

Lemma unknown_event_dropped_witness :
  _handle_event Scenario.env0 (<["type" := "user_typing"]> ∅) Scenario.connected
  = Ok tt Scenario.connected.
Proof.
  apply (proj1 (unknown_event_dropped Scenario.env0
                  (<["type" := "user_typing"]> ∅) Scenario.connected)
               "user_typing").
  - reflexivity.
  - discriminate.
  - discriminate.
Defined.

(** C7 fails as stated: a message event without a text makes the handler
    raise. *)
Lemma malformed_event_raises :
  _handle_event Scenario.env0 (<["type" := "message"]> ∅) Scenario.connected
  = Raise (KeyError "text") Scenario.connected /\
  _handle_event Scenario.env0 (<["type" := "message"]> ∅) Scenario.connected
  <> Ok tt Scenario.connected.
Proof. split; [vm_compute; reflexivity | discriminate]. Qed.

(** ** [save] works on a copy *)

Section Frame.
Variable env : Env.

Lemma frame_refl n s : n <= length (heap s) -> frame n s s.
Proof. by intros H. Qed.

Lemma frame_trans n s1 s2 s3 : frame n s1 s2 -> frame n s2 s3 -> frame n s1 s3.
Proof.
  intros (A1 & B1 & C1) (A2 & B2 & C2). split; [congruence|].
  split; [done|]. intros l Hl. rewrite C2 by done. by apply C1.
Qed.

Lemma frame_insert n l u s :
  n <= length (heap s) -> n <= l ->
  frame n s (next_tick (set_heap (<[l := u]> (heap s)) s)).
Proof.
  intros Hn Hl. split; [done|]. simpl. split; [by rewrite length_insert|].
  intros l0 Hl0. apply list_lookup_insert_ne. lia.
Qed.

Lemma set_offline_frame n users user_id s :
  n <= length (heap s) -> Forall (fun kl => n <= kl.2) users ->
  frame n s (state_of (set_offline env users user_id s)).
Proof.
  intros Hn Hrefs. destruct (Dict.get user_id users) as [l|] eqn:Hget.
  2:{ rewrite set_offline_missing by done. by apply frame_refl. }
  assert (n <= l) as Hl.
  { apply DictFacts.get_elem_of in Hget. rewrite Forall_forall in Hrefs.
    apply (Hrefs _ Hget). }
  destruct (heap s !! l) as [u|] eqn:Hu.
  2:{ erewrite set_offline_dangling by done. by apply frame_refl. }
  destruct (first_seen u) as [t0|] eqn:H0.
  - erewrite set_offline_run by done. by apply frame_insert.
  - erewrite set_offline_untimed by done. by apply frame_insert.
Qed.

Lemma save_loop_frame n current_users items : forall s,
  n <= length (heap s) -> Forall (fun kl => n <= kl.2) current_users ->
  frame n s (state_of (save_loop env current_users items s)).
Proof.
  induction items as [|[user_id user] rest IH]; intros s Hn Hrefs.
  - by apply frame_refl.
  - cbn [save_loop]. destruct (heap s !! user) as [u|] eqn:Hu.
    2:{ rewrite (bind_Raise _ _ _ _ _ (deref_None _ _ Hu)).
        by apply frame_refl. }
    rewrite (bind_Ok _ _ _ _ _ (deref_Some _ _ _ Hu)).
    assert (frame n s (state_of
              ((if active u then set_offline env current_users user_id
                else ret tt) s))) as Hf.
    { destruct (active u); [by apply set_offline_frame | by apply frame_refl]. }
    destruct ((if active u then set_offline env current_users user_id
               else ret tt) s) as [[] s1|e s1] eqn:Hstep; simpl in Hf.
    + rewrite (bind_Ok _ _ _ _ _ Hstep).
      eapply frame_trans; [exact Hf|]. apply IH; [|done].
      by destruct Hf as (_ & ? & _).
    + by rewrite (bind_Raise _ _ _ _ _ Hstep).
Qed.

Lemma db_save_frame n filename users s :
  n <= length (heap s) -> frame n s (state_of (db_save filename users s)).
Proof.
  intros Hn. unfold db_save. destruct (dump_spec users s) as [Hst Hok].
  destruct (dump users s) as [stored s1|e s1] eqn:Hdump; simpl in Hst; subst s1.
  - rewrite (bind_Ok _ _ _ _ _ Hdump). simpl. by split.
  - rewrite (bind_Raise _ _ _ _ _ Hdump). by apply frame_refl.
Qed.

Lemma save_frame s : frame (length (heap s)) s (state_of (save env s)).
Proof.
  unfold save. rewrite (bind_Ok _ _ s (_users (self s)) s) by done.
  destruct (deepcopy_spec (_users (self s)) s) as (recs & Hst & _ & Hok).
  assert (frame (length (heap s)) s (set_heap (heap s ++ recs) s)) as Hf.
  { split; [done|]. simpl. split; [rewrite length_app; lia|].
    intros l Hl. by apply lookup_app_l. }
  destruct (deepcopy (_users (self s)) s) as [cu s1|e s1] eqn:Hcopy;
    simpl in Hst; subst s1.
  2:{ by rewrite (bind_Raise _ _ _ _ _ Hcopy). }
  rewrite (bind_Ok _ _ _ _ _ Hcopy).
  destruct (Hok cu _ eq_refl) as [_ Hrefs].
  assert (Forall (fun kl => length (heap s) <= kl.2) cu) as Hge.
  { eapply Forall_impl; [exact Hrefs|]. intros kl. simpl. lia. }
  set (s1 := set_heap (heap s ++ recs) s) in *.
  pose proof (save_loop_frame (length (heap s)) cu cu s1
                (proj1 (proj2 Hf)) Hge) as Hloop.
  eapply frame_trans; [exact Hf|].
  destruct (save_loop env cu cu s1) as [[] s2|e s2] eqn:Hrun; simpl in Hloop.
  2:{ by rewrite (bind_Raise _ _ _ _ _ Hrun). }
  rewrite (bind_Ok _ _ _ _ _ Hrun).
  rewrite (bind_Ok _ _ s2 (_db_filename (self s2)) s2) by done.
  eapply frame_trans; [exact Hloop|]. apply db_save_frame.
  by destruct Hloop as (_ & ? & _).
Qed.

End Frame.

(** C10. Whatever the state, and whether [save] returns or raises, the bot
    and its ledger are the same after [save] as before, and every record
    that existed before is unchanged: each user's active flag, session
    start and total are what they were. *)
Theorem save_keeps_live_ledger (env : Env) (s : State) :
  let s' := state_of (save env s) in
  self s' = self s /\
  (forall l u, heap s !! l = Some u -> heap s' !! l = Some u) /\
  (forall user_id u,
      lookup_user s user_id = Some u -> lookup_user s' user_id = Some u).
Proof.
  destruct (save_frame env s) as (Hself & Hlen & Hcells). simpl.
  assert (forall l u, heap s !! l = Some u ->
                      heap (state_of (save env s)) !! l = Some u) as Hkeep.
  { intros l u Hl. rewrite Hcells; [done|]. by eapply lookup_lt_Some. }
  split; [done|]. split; [done|].
  intros user_id u. unfold lookup_user. rewrite Hself.
  destruct (Dict.get user_id (_users (self s))) as [l|]; simpl; [|done].
  apply Hkeep.
Qed.

Lemma save_keeps_live_ledger_witness :
  lookup_user Scenario.online "U1"
  = Some (mkUser Scenario.ann true (Some 60%Z) 0 false) /\
  lookup_user (state_of (save Scenario.env0 Scenario.online)) "U1"
  = Some (mkUser Scenario.ann true (Some 60%Z) 0 false).
Proof.
  assert (lookup_user Scenario.online "U1"
          = Some (mkUser Scenario.ann true (Some 60%Z) 0 false)) as H
      by (vm_compute; reflexivity).
  split; [exact H|].
  exact (proj2 (proj2 (save_keeps_live_ledger Scenario.env0 Scenario.online))
               "U1" _ H).
Defined.






(** ** The scores report *)

Section Scores.
Variable env : Env.




End Scores.



(** ** What [save] writes *)

Section SaveRun.
Variable env : Env.





End SaveRun.

Section SaveResult.
Variable env : Env.




End SaveResult.



(** ** Addressing and commands *)

Section Commands.
Variable env : Env.

Lemma lower_char_idem c : Str.lower_char (Str.lower_char c) = Str.lower_char c.
Proof. destruct c as [[] [] [] [] [] [] [] []]; reflexivity. Qed.

Lemma lower_idem s : Str.lower (Str.lower s) = Str.lower s.
Proof.
  induction s as [|c s IH]; simpl; [done|].
  by rewrite lower_char_idem, IH.
Qed.

Lemma append_nil (b : string) : "" +:+ b = b.
Proof. reflexivity. Qed.

Lemma append_cons x (a b : string) : String x a +:+ b = String x (a +:+ b).
Proof. reflexivity. Qed.

Lemma append_assoc (a b c : string) : (a +:+ b) +:+ c = a +:+ (b +:+ c).
Proof.
  induction a as [|x a IH]; [done|]. rewrite !append_cons. by rewrite IH.
Qed.

Lemma append_empty_r (a : string) : a +:+ "" = a.
Proof.
  induction a as [|x a IH]; [done|]. rewrite append_cons. by rewrite IH.
Qed.

Lemma prefix_append (m r : string) : String.prefix m (m +:+ r) = true.
Proof.
  induction m as [|x m IH]; [by destruct r|]. rewrite append_cons. simpl.
  destruct (Ascii.ascii_dec x x); [exact IH | done].
Qed.

Lemma string_drop_append (m r : string) :
  string_drop (String.length m) (m +:+ r) = r.
Proof.
  induction m as [|x m IH]; [by destruct r|]. rewrite append_cons. exact IH.
Qed.

(** A chunk goes on as long as no white space comes. *)
Lemma split_from_chunk (m : string) : forall cur r,
  has_space m = false ->
  Str.split_from cur (m +:+ r) = Str.split_from (cur +:+ m) r.
Proof.
  induction m as [|x m IH]; intros cur r Hm.
  - by rewrite append_nil, append_empty_r.
  - simpl in Hm. apply orb_false_iff in Hm as [Hx Hm].
    rewrite append_cons. cbn [Str.split_from]. rewrite Hx, IH by done.
    by rewrite append_assoc.
Qed.

Lemma split_after_chunk (m : string) c r :
  m <> "" -> has_space m = false -> Str.isspace c = true ->
  Str.split (m +:+ String c r) = m :: Str.split r.
Proof.
  intros Hne Hm Hc. unfold Str.split. rewrite split_from_chunk by done.
  rewrite append_nil. cbn [Str.split_from]. rewrite Hc.
  destruct (String.eqb m "") eqn:E; [|done].
  apply String.eqb_eq in E. done.
Qed.

Lemma handle_message_run event text s :
  event !! "text" = Some text ->
  _handle_message env event s =
  match (if Str.startswith text (mention (_id (self s)))
         then Str.split text else []) with
  | _ :: command :: args => _handle_command env event command args s
  | _ => Ok tt s
  end.
Proof.
  intros Ht. unfold _handle_message, event_getitem. rewrite Ht.
  rewrite (bind_Ok _ _ s text s) by done.
  rewrite (bind_Ok _ _ s (_id (self s)) s) by done.
  destruct (Str.startswith text (mention (_id (self s)))); [|done].
  destruct (Str.split text) as [|a [|b [|c rest]]]; simpl; done.
Qed.

Lemma handle_command_lower event command args :
  _handle_command env event command args
  = _handle_command env event (Str.lower command) args.
Proof. unfold _handle_command. by rewrite lower_idem. Qed.

Lemma handle_command_unknown event command args s :
  recognized command = false ->
  _handle_command env event command args s = Ok tt s.
Proof.
  unfold recognized, _handle_command. intros H.
  repeat (apply orb_false_iff in H as [H ?]).
  rewrite H. simpl.
  repeat match goal with E : String.eqb _ _ = false |- _ =>
           rewrite E; clear E end.
  done.
Qed.

End Commands.

(** C8, as the code has it.  A message is dispatched as a command exactly
    when its text begins with the mention of the bot and has at least two
    chunks between white space; the command name is then the second chunk
    of the whole text, taken without regard to case, and the arguments are
    the chunks after it.  A command name that is not recognized posts
    nothing and leaves all state as it is.  When white space follows the
    mention, the second chunk of the text is the first chunk after the
    mention, as the specification words it. *)
Theorem command_is_second_chunk (env : Env) (event : Event) (text : string)
        (s : State) :
  event !! "text" = Some text ->
  (_handle_message env event s =
   match (if Str.startswith text (mention (_id (self s)))
          then Str.split text else []) with
   | _ :: command :: args => _handle_command env event command args s
   | _ => Ok tt s
   end) /\
  (forall command args,
      _handle_command env event command args
      = _handle_command env event (Str.lower command) args) /\
  (forall command args s',
      recognized command = false ->
      _handle_command env event command args s' = Ok tt s') /\
  (forall c rest,
      text = mention (_id (self s)) +:+ String c rest ->
      Str.isspace c = true ->
      has_space (mention (_id (self s))) = false ->
      Str.startswith text (mention (_id (self s))) = true /\
      Str.split text = mention (_id (self s)) :: Str.split rest /\
      spec_command (_id (self s)) text
      = match Str.split rest with
        | command :: args => Some (command, args)
        | [] => None
        end).
Proof.
  intros Ht. split; [by apply handle_message_run|].
  split; [apply handle_command_lower|].
  split; [apply handle_command_unknown|].
  intros c rest -> Hc Hm.
  assert (Str.startswith (mention (_id (self s)) +:+ String c rest)
                         (mention (_id (self s))) = true) as Hpre
      by apply prefix_append.
  split; [exact Hpre|]. split.
  - apply split_after_chunk; [|done|done]. by destruct (_id (self s)).
  - unfold spec_command. rewrite Hpre, string_drop_append.
    unfold Str.split. cbn [Str.split_from]. by rewrite Hc.
Qed.

Lemma command_is_second_chunk_witness :
  _handle_message Scenario.env0 (Scenario.message "<@BOT> HELLO there")
                  Scenario.connected
  = _handle_command Scenario.env0 (Scenario.message "<@BOT> HELLO there")
                    "hello" ["there"] Scenario.connected /\
  spec_command (Some "BOT") "<@BOT> HELLO there" = Some ("HELLO", ["there"]).
Proof.
  destruct (command_is_second_chunk
              Scenario.env0 (Scenario.message "<@BOT> HELLO there")
              "<@BOT> HELLO there" Scenario.connected eq_refl)
    as (Hrun & Hlower & _ & Hspec).
  split.
  - rewrite Hrun. change (_id (self Scenario.connected)) with (Some "BOT").
    change (Str.startswith "<@BOT> HELLO there" (mention (Some "BOT")))
      with true.
    change (Str.split "<@BOT> HELLO there") with ["<@BOT>"; "HELLO"; "there"].
    by rewrite Hlower.
  - destruct (Hspec " "%char "HELLO there" eq_refl eq_refl eq_refl)
      as (_ & _ & H).
    exact H.
Defined.

(** C8 fails as stated.  The text ["<@BOT>hello"] begins with the mention
    and its first chunk after the mention is [hello], yet nothing is
    dispatched, while the command [hello] posts the greeting; and
    ["<@BOT>hi scores"] runs [scores], not [hi]. *)
Lemma glued_mention_not_dispatched :
  spec_command (Some "BOT") "<@BOT>hello" = Some ("hello", []) /\
  _handle_message Scenario.env0 (Scenario.message "<@BOT>hello")
                  Scenario.connected = Ok tt Scenario.connected /\
  sent (state_of (_handle_command Scenario.env0 (Scenario.message "<@BOT>hello")
                                  "hello" [] Scenario.connected))
  = [("C1", "Hello from Python! :tada:")] /\
  spec_command (Some "BOT") "<@BOT>hi scores" = Some ("hi", ["scores"]) /\
  sent (state_of (_handle_message Scenario.env0
                                  (Scenario.message "<@BOT>hi scores")
                                  Scenario.connected))
  = [("C1", "Scores:" +:+ Str.newline +:+ "Ann: 0")].
Proof. vm_compute. repeat split; reflexivity. Qed.

(** * More of the program *)

(** ** A first notification for a person *)

Section FirstSight.
Variable env : Env.

Lemma dict_set_new {V} (k : string) (v : V) (d : list (string * V)) :
  Dict.get k d = None -> Dict.set k v d = d ++ [(k, v)].
Proof.
  induction d as [|[k0 v0] d IH]; simpl; [done|].
  destruct (String.eqb k k0); [done|]. intros H. by rewrite IH.
Qed.

Lemma dict_get_app_new {V} (k : string) (v : V) (d : list (string * V)) :
  Dict.get k d = None -> Dict.get k (d ++ [(k, v)]) = Some v.
Proof.
  intros H. rewrite <- (dict_set_new k v d H). apply DictFacts.get_set_eq.
Qed.

Lemma update_presence_run user_id l u b s :
  Dict.get user_id (_users (self s)) = Some l ->
  heap s !! l = Some u ->
  users_getPresence env (tick s) user_id = Some b ->
  update_presence env user_id s =
  (if b
   then (if negb (active u)
         then set_online env (_users (self s)) user_id else ret tt)
   else (if active u
         then set_offline env (_users (self s)) user_id else ret tt))
    (next_tick s).
Proof.
  intros Hget Hl Hb. unfold update_presence.
  assert (api_is_user_active env user_id s = Ok b (next_tick s)) as Hapi.
  { unfold api_is_user_active. by rewrite Hb. }
  rewrite (bind_Ok _ _ _ _ _ Hapi).
  rewrite (bind_Ok _ _ (next_tick s) (_users (self s)) (next_tick s)) by done.
  assert (getitem (_users (self s)) user_id (next_tick s)
          = Ok l (next_tick s)) as Hitem.
  { unfold getitem. by rewrite Hget. }
  rewrite (bind_Ok _ _ _ _ _ Hitem).
  rewrite (bind_Ok _ _ (next_tick s) u (next_tick s)); [done|].
  by apply deref_Some.
Qed.

Lemma update_user_new user_id info s :
  Dict.get user_id (_users (self s)) = None ->
  users_info env (tick s) user_id = Some info -> is_bot info = false ->
  _update_user env user_id s
  = update_presence env user_id (enrolled user_id (info_profile info) s).
Proof.
  intros Hget Hinfo Hbot. unfold _update_user.
  rewrite (bind_Ok _ _ s (_users (self s)) s) by done.
  unfold Dict.mem. rewrite Hget. simpl.
  assert (api_get_user_info env user_id s = Ok info (next_tick s)) as Hapi.
  { unfold api_get_user_info. by rewrite Hinfo. }
  rewrite (bind_Ok _ _ _ _ _ Hapi). rewrite Hbot.
  rewrite (bind_Ok _ _ _ _ _ (alloc_run _ (next_tick s))).
  unfold modify at 1.
  match goal with
  | |- bind ?c ?k ?s0 = _ => rewrite (bind_Ok c k s0 tt _ eq_refl)
  end.
  unfold enrolled. simpl. by rewrite (dict_set_new _ _ _ Hget).
Qed.

End FirstSight.

(** X1. The first notification for a person who is not in the ledger,
    when Slack answers both calls: the ledger gets one new entry, after the
    others, for a new record with the fetched profile and a total of zero;
    the record is active from the next reading of the clock when Slack
    says active and inactive otherwise.  Nothing else changes. *)
Theorem first_sight_creates_record (env : Env) (user_id : string)
        (info : UserInfo) (b : bool) (s : State) :
  Dict.get user_id (_users (self s)) = None ->
  users_info env (tick s) user_id = Some info -> is_bot info = false ->
  users_getPresence env (S (tick s)) user_id = Some b ->
  exists s',
    _update_user env user_id s = Ok tt s' /\
    _users (self s') = _users (self s) ++ [(user_id, length (heap s))] /\
    heap s' = heap s ++
              [mkUser (info_profile info) b
                      (if b then Some (clock env (S (S (tick s)))) else None)
                      0 false] /\
    disk s' = disk s /\ sent s' = sent s.
Proof.
  intros Hget Hinfo Hbot Hb.
  rewrite (update_user_new env _ _ _ Hget Hinfo Hbot).
  set (s1 := enrolled user_id (info_profile info) s).
  assert (Dict.get user_id (_users (self s1)) = Some (length (heap s)))
    as Hget1 by (by apply dict_get_app_new).
  assert (heap s1 !! length (heap s)
          = Some (mkUser (info_profile info) false None 0 false)) as Hl1.
  { simpl. by apply list_lookup_middle. }
  rewrite (update_presence_run env _ _ _ _ _ Hget1 Hl1 Hb).
  destruct b; cbn [negb active].
  - rewrite (set_online_run env _ _ _ _ (next_tick s1) Hget1 Hl1).
    eexists. split; [done|]. simpl. split; [done|]. split; [|done].
    rewrite insert_app_r_alt by lia. by rewrite Nat.sub_diag.
  - eexists. split; [done|]. done.
Qed.

Lemma first_sight_creates_record_witness :
  exists s',
    _update_user Scenario.env0 "U2" Scenario.connected = Ok tt s' /\
    _users (self s') = [("U1", 0); ("U2", 1)] /\
    heap s' = [mkUser Scenario.ann false None 0 false;
               mkUser Scenario.ann false None 0 false].
Proof.
  destruct (first_sight_creates_record
              Scenario.env0 "U2" (mkUserInfo false Scenario.ann) false
              Scenario.connected)
    as (s' & Hrun & Hu & Hh & _); try reflexivity.
  exists s'. split; [exact Hrun|]. split; [exact Hu | exact Hh].
Defined.

(** X2. When the profile of a new person was fetched but the presence
    query that follows fails, [_update_user] raises, and the record it has
    just made stays in the ledger: inactive, with a total of zero. *)
Theorem first_sight_presence_failure (env : Env) (user_id : string)
        (info : UserInfo) (s : State) :
  Dict.get user_id (_users (self s)) = None ->
  users_info env (tick s) user_id = Some info -> is_bot info = false ->
  users_getPresence env (S (tick s)) user_id = None ->
  exists s',
    _update_user env user_id s = Raise RuntimeError s' /\
    lookup_user s' user_id
    = Some (mkUser (info_profile info) false None 0 false) /\
    _users (self s') = _users (self s) ++ [(user_id, length (heap s))].
Proof.
  intros Hget Hinfo Hbot Hb.
  rewrite (update_user_new env _ _ _ Hget Hinfo Hbot).
  unfold update_presence, bind, api_is_user_active. simpl. rewrite Hb.
  eexists. split; [done|]. split; [|done].
  unfold lookup_user. simpl. rewrite dict_get_app_new by done. simpl.
  by apply list_lookup_middle.
Qed.

Lemma first_sight_presence_failure_witness :
  exists s',
    _update_user (mkEnv (clock Scenario.env0) (users_info Scenario.env0)
                        (fun _ _ => None)
                        (conversations_members Scenario.env0)
                        (channels_list Scenario.env0)
                        (chat_postMessage Scenario.env0)
                        (login_self Scenario.env0))
                 "U2" Scenario.connected = Raise RuntimeError s' /\
    lookup_user s' "U2" = Some (mkUser Scenario.ann false None 0 false) /\
    _users (self s') = [("U1", 0); ("U2", 1)].
Proof.
  refine (first_sight_presence_failure _ "U2" (mkUserInfo false Scenario.ann)
            Scenario.connected _ _ _ _); reflexivity.
Defined.

(** ** What the operations leave alone *)

Section Always.
Variable env : Env.

Lemma always_bind {A B} (Rel : State -> State -> Prop)
      (c : M A) (k : A -> M B) :
  (forall s1 s2 s3, Rel s1 s2 -> Rel s2 s3 -> Rel s1 s3) ->
  always Rel c -> (forall a, always Rel (k a)) -> always Rel (bind c k).
Proof.
  intros Htrans Hc Hk s. unfold bind. specialize (Hc s).
  destruct (c s) as [a s'|e s']; simpl in *; [|done].
  eapply Htrans; [exact Hc | apply Hk].
Qed.

Lemma keeps_bind {A B} (J : State -> Prop) (c : M A) (k : A -> M B) :
  keeps J c -> (forall a, keeps J (k a)) -> keeps J (bind c k).
Proof.
  intros Hc Hk s Hs. unfold bind. specialize (Hc s Hs).
  destruct (c s) as [a s'|e s']; simpl in *; [|done]. by apply Hk.
Qed.

Lemma always_weaken {A} (R1 R2 : State -> State -> Prop) (c : M A) :
  (forall s s', R1 s s' -> R2 s s') -> always R1 c -> always R2 c.
Proof. intros H Hc s. apply H, Hc. Qed.

Lemma same_store_trans s1 s2 s3 :
  same_store s1 s2 -> same_store s2 s3 -> same_store s1 s3.
Proof.
  intros (A1 & B1 & C1 & D1) (A2 & B2 & C2 & D2). repeat split; congruence.
Qed.

Lemma same_bot_trans s1 s2 s3 :
  same_bot s1 s2 -> same_bot s2 s3 -> same_bot s1 s3.
Proof. intros (A1 & B1) (A2 & B2). split; congruence. Qed.

Lemma same_bot_of_store s s' : same_store s s' -> same_bot s s'.
Proof. by intros (? & _ & ? & _). Qed.

(** Reads of the state, of the clock and of Slack. *)
Lemma always_ret {A} (a : A) : always same_store (ret a).
Proof. by intros s. Qed.

Lemma always_raise {A} e : always same_store (@raise A e).
Proof. by intros s. Qed.

Lemma always_gets {A} (f : State -> A) : always same_store (gets f).
Proof. by intros s. Qed.

Lemma always_event_getitem event k : always same_store (event_getitem event k).
Proof. intros s. unfold event_getitem. by destruct (event !! k). Qed.

Lemma always_getitem users user_id : always same_store (getitem users user_id).
Proof. intros s. unfold getitem. by destruct (Dict.get user_id users). Qed.

Lemma always_deref l : always same_store (deref l).
Proof. intros s. unfold deref. by destruct (heap s !! l). Qed.

Lemma always_time_time : always same_store (time_time env).
Proof. by intros s. Qed.

Lemma always_elapsed_since now t0 : always same_store (elapsed_since now t0).
Proof. intros s. unfold elapsed_since. by destruct t0. Qed.

Lemma always_api_is_user_active user_id :
  always same_store (api_is_user_active env user_id).
Proof.
  intros s. unfold api_is_user_active.
  by destruct (users_getPresence env (tick s) user_id).
Qed.

Lemma always_api_send_message channel text :
  always same_bot (api_send_message env channel text).
Proof.
  intros s. unfold api_send_message.
  by destruct (chat_postMessage env (tick s) channel text).
Qed.

Lemma always_live_total u : always same_store (live_total env u).
Proof.
  unfold live_total. destruct (active u); [|apply always_ret].
  apply always_bind; [apply same_store_trans | apply always_time_time |].
  intros now.
  apply always_bind; [apply same_store_trans | apply always_elapsed_since |].
  intros elapsed. apply always_ret.
Qed.

Lemma always_scores_loop items scores :
  always same_store (scores_loop env items scores).
Proof.
  revert scores. induction items as [|[user_id user] rest IH]; intros scores;
    simpl.
  - apply always_ret.
  - apply always_bind; [apply same_store_trans | apply always_deref |].
    intros u.
    apply always_bind; [apply same_store_trans | apply always_live_total |].
    intros n. apply IH.
Qed.

(** Writes to a record. *)
Lemma always_setattr l f : always same_bot (setattr l f).
Proof.
  intros s. unfold setattr, bind, deref, modify.
  by destruct (heap s !! l).
Qed.

Lemma always_set_online users user_id :
  always same_bot (set_online env users user_id).
Proof.
  assert (forall A (c : M A), always same_store c -> always same_bot c) as Hw.
  { intros A c. apply always_weaken, same_bot_of_store. }
  unfold set_online.
  apply always_bind; [apply same_bot_trans | apply Hw, always_getitem |].
  intros l.
  apply always_bind; [apply same_bot_trans | apply always_setattr |].
  intros _.
  apply always_bind; [apply same_bot_trans | apply Hw, always_time_time |].
  intros now.
  apply always_bind; [apply same_bot_trans | apply Hw, always_getitem |].
  intros l'. apply always_setattr.
Qed.

Lemma always_set_offline users user_id :
  always same_bot (set_offline env users user_id).
Proof.
  assert (forall A (c : M A), always same_store c -> always same_bot c) as Hw.
  { intros A c. apply always_weaken, same_bot_of_store. }
  unfold set_offline.
  apply always_bind; [apply same_bot_trans | apply Hw, always_getitem |].
  intros l.
  apply always_bind; [apply same_bot_trans | apply always_setattr |].
  intros _.
  apply always_bind; [apply same_bot_trans | apply Hw, always_getitem |].
  intros l1.
  apply always_bind; [apply same_bot_trans | apply Hw, always_deref |].
  intros u.
  apply always_bind; [apply same_bot_trans | apply Hw, always_time_time |].
  intros now.
  apply always_bind; [apply same_bot_trans | apply Hw, always_getitem |].
  intros l'.
  apply always_bind; [apply same_bot_trans | apply Hw, always_deref |].
  intros u'.
  apply always_bind; [apply same_bot_trans | apply Hw, always_elapsed_since |].
  intros elapsed.
  apply always_bind; [apply same_bot_trans | apply always_setattr |].
  intros _.
  apply always_bind; [apply same_bot_trans | apply Hw, always_getitem |].
  intros l2. apply always_setattr.
Qed.

Lemma always_update_presence user_id :
  always same_bot (update_presence env user_id).
Proof.
  assert (forall A (c : M A), always same_store c -> always same_bot c) as Hw.
  { intros A c. apply always_weaken, same_bot_of_store. }
  unfold update_presence.
  apply always_bind;
    [apply same_bot_trans | apply Hw, always_api_is_user_active |].
  intros is_active.
  apply always_bind; [apply same_bot_trans | apply Hw, always_gets |].
  intros users.
  apply always_bind; [apply same_bot_trans | apply Hw, always_getitem |].
  intros l.
  apply always_bind; [apply same_bot_trans | apply Hw, always_deref |].
  intros u.
  destruct is_active, (active u); simpl;
    first [apply always_set_online | apply always_set_offline
          | apply Hw, always_ret].
Qed.

End Always.

(** ** Who enters the ledger *)

Section Enrolment.
Variable env : Env.

Lemma enrols_of_same_bot allowed s s' : same_bot s s' -> enrols env allowed s s'.
Proof.
  intros [Hself Hdisk]. split; [done|]. split.
  - unfold same_identity. by rewrite Hself.
  - exists []. rewrite Hself, app_nil_r. split; [done | constructor].
Qed.

Lemma enrols_refl allowed s : enrols env allowed s s.
Proof. by apply enrols_of_same_bot. Qed.

Lemma enrols_trans allowed s1 s2 s3 :
  enrols env allowed s1 s2 -> enrols env allowed s2 s3 ->
  enrols env allowed s1 s3.
Proof.
  intros (D1 & I1 & new1 & K1 & F1) (D2 & I2 & new2 & K2 & F2).
  split; [congruence|]. split.
  - destruct I1 as (?&?&?&?&?), I2 as (?&?&?&?&?).
    unfold same_identity. repeat split; congruence.
  - exists (new1 ++ new2). rewrite K2, K1, app_assoc. split; [done|].
    by apply Forall_app.
Qed.

Lemma enrols_more allowed allowed' s s' :
  (forall k, k ∈ allowed -> k ∈ allowed') ->
  enrols env allowed s s' -> enrols env allowed' s s'.
Proof.
  intros Hsub (D & I & new & K & F). split; [done|]. split; [done|].
  exists new. split; [done|]. eapply Forall_impl; [exact F|].
  intros k [Hk Hn]. split; [by apply Hsub | done].
Qed.

Lemma enrols_next_tick allowed s : enrols env allowed s (next_tick s).
Proof. by apply enrols_of_same_bot. Qed.

Lemma enrols__update_user user_id :
  always (enrols env [user_id]) (_update_user env user_id).
Proof.
  intros s. destruct (Dict.get user_id (_users (self s))) as [l|] eqn:Hget.
  - assert (_update_user env user_id s = update_presence env user_id s) as ->.
    { unfold _update_user.
      rewrite (bind_Ok _ _ s (_users (self s)) s) by done.
      unfold Dict.mem. by rewrite Hget. }
    apply enrols_of_same_bot, always_update_presence.
  - destruct (users_info env (tick s) user_id) as [info|] eqn:Hinfo.
    + destruct (is_bot info) eqn:Hbot.
      * assert (_update_user env user_id s = Ok tt (next_tick s)) as ->.
        { unfold _update_user.
          rewrite (bind_Ok _ _ s (_users (self s)) s) by done.
          unfold Dict.mem. rewrite Hget. simpl.
          unfold bind, api_get_user_info. by rewrite Hinfo, Hbot. }
        apply enrols_next_tick.
      * rewrite (update_user_new env _ _ _ Hget Hinfo Hbot).
        set (s1 := enrolled user_id (info_profile info) s).
        destruct (always_update_presence env user_id s1) as [Hself Hdisk].
        split; [by rewrite Hdisk|]. split.
        { unfold same_identity. by rewrite Hself. }
        exists [user_id]. rewrite Hself. simpl. rewrite fmap_app. simpl.
        split; [done|]. constructor; [|constructor].
        split; [apply list_elem_of_singleton; done|].
        by exists (tick s), info.
    + assert (_update_user env user_id s = Raise RuntimeError (next_tick s))
        as ->.
      { unfold _update_user.
        rewrite (bind_Ok _ _ s (_users (self s)) s) by done.
        unfold Dict.mem. rewrite Hget. simpl.
        unfold bind, api_get_user_info. by rewrite Hinfo. }
      apply enrols_next_tick.
Qed.

Lemma enrols_update_each member_ids :
  always (enrols env member_ids) (update_each env member_ids).
Proof.
  induction member_ids as [|member_id rest IH]; simpl.
  - intros s. apply enrols_refl.
  - apply always_bind; [apply enrols_trans | |].
    + eapply always_weaken; [|apply enrols__update_user].
      intros s s'. apply enrols_more. intros k Hk.
      apply list_elem_of_singleton in Hk. subst k. left.
    + intros _. eapply always_weaken; [|exact IH].
      intros s s'. apply enrols_more. intros k Hk. by right.
Qed.

(** The answer of [conversations.members] that [_update_all_users] gets
    in state [s], or no member when the call fails. *)
Lemma enrols__update_all_users s :
  enrols env (default [] (conversations_members env (tick s)
                                                (_rpg_channel_id (self s))))
         s (state_of (_update_all_users env s)).
Proof.
  unfold _update_all_users.
  rewrite (bind_Ok _ _ s (_rpg_channel_id (self s)) s) by done.
  unfold bind at 1, api_get_channel_users.
  destruct (conversations_members env (tick s) (_rpg_channel_id (self s)))
    as [ids|]; simpl.
  - eapply enrols_trans; [apply (enrols_next_tick _ s)|].
    apply enrols_update_each.
  - apply enrols_next_tick.
Qed.

End Enrolment.

(** X3. The membership sync, whether it returns or raises, never removes or
    reorders a user: the ledger keeps its keys in their order, and what
    comes after them are members that Slack has just listed and whose
    fetched profile was not flagged as a bot.  The files and the other
    fields of the bot are left as they are. *)
Theorem sync_only_appends (env : Env) (s : State) :
  let s' := state_of (_update_all_users env s) in
  let members :=
    default [] (conversations_members env (tick s)
                                      (_rpg_channel_id (self s))) in
  disk s' = disk s /\ same_identity s s' /\
  exists new,
    (_users (self s')).*1 = (_users (self s)).*1 ++ new /\
    Forall (fun k => (k ∈ members) /\ non_bot env k) new.
Proof.
  intros s' members.
  destruct (enrols__update_all_users env s) as (Hd & Hi & new & Hk & Hn).
  split; [exact Hd|]. split; [exact Hi|]. exists new. by split.
Qed.

(** ** Bots stay out *)

Section BotFree.
Variable env : Env.
Variable bot_id : string.
Hypothesis flagged :
  forall t info, users_info env t bot_id = Some info -> is_bot info = true.

Lemma bot_free_same_bot s s' :
  same_bot s s' -> bot_free bot_id s -> bot_free bot_id s'.
Proof. intros [Hself Hdisk] [Hu Hd]. unfold bot_free. by rewrite Hself, Hdisk. Qed.

Lemma bot_free_enrols allowed s s' :
  enrols env allowed s s' -> bot_free bot_id s -> bot_free bot_id s'.
Proof.
  intros (Hdisk & _ & new & Hk & Hnew) [Hu Hd]. unfold bot_free.
  rewrite Hdisk, Hk. split; [|done].
  intros Hin. apply elem_of_app in Hin as [Hin|Hin]; [done|].
  rewrite Forall_forall in Hnew.
  destruct (Hnew _ Hin) as (_ & t & info & Hinfo & Hbot).
  rewrite (flagged _ _ Hinfo) in Hbot. done.
Qed.

Lemma keeps_of_always {A} (c : M A) :
  always same_bot c -> keeps (bot_free bot_id) c.
Proof. intros Hc s Hs. eapply bot_free_same_bot; [apply Hc | done]. Qed.

Lemma keeps_of_store {A} (c : M A) :
  always same_store c -> keeps (bot_free bot_id) c.
Proof.
  intros Hc. apply keeps_of_always.
  eapply always_weaken; [apply same_bot_of_store | exact Hc].
Qed.

Lemma always_save_loop current_users items :
  always same_bot (save_loop env current_users items).
Proof.
  induction items as [|[user_id user] rest IH]; simpl.
  - intros s. done.
  - apply always_bind; [apply same_bot_trans | |].
    { eapply always_weaken; [apply same_bot_of_store | apply always_deref]. }
    intros u. apply always_bind; [apply same_bot_trans | | intros _; exact IH].
    destruct (active u); [apply always_set_offline | by intros s].
Qed.

(** [save] either leaves the files alone or writes the keys of the
    ledger. *)
Lemma save_writes_ledger_keys s :
  self (state_of (save env s)) = self s /\
  (disk (state_of (save env s)) = disk s \/
   exists stored,
     disk (state_of (save env s))
     = <[_db_filename (self s) := stored]> (disk s) /\
     stored.*1 = (_users (self s)).*1).
Proof.
  split; [by destruct (save_frame env s)|].
  unfold save. rewrite (bind_Ok _ _ s (_users (self s)) s) by done.
  destruct (deepcopy_spec (_users (self s)) s) as (recs & Hst & _ & Hok).
  destruct (deepcopy (_users (self s)) s) as [cu s1|e s1] eqn:Hcopy;
    simpl in Hst; subst s1.
  2:{ rewrite (bind_Raise _ _ _ _ _ Hcopy). by left. }
  rewrite (bind_Ok _ _ _ _ _ Hcopy).
  destruct (Hok cu _ eq_refl) as [Hk _].
  set (s1 := set_heap (heap s ++ recs) s).
  destruct (always_save_loop cu cu s1) as [Hself2 Hdisk2].
  destruct (save_loop env cu cu s1) as [[] s2|e s2] eqn:Hloop; simpl in *.
  2:{ rewrite (bind_Raise _ _ _ _ _ Hloop). by left. }
  rewrite (bind_Ok _ _ _ _ _ Hloop).
  rewrite (bind_Ok _ _ s2 (_db_filename (self s2)) s2) by done.
  unfold db_save. destruct (dump_spec cu s2) as [Hst3 Hok3].
  destruct (dump cu s2) as [stored s3|e s3] eqn:Hdump; simpl in Hst3; subst s3.
  2:{ rewrite (bind_Raise _ _ _ _ _ Hdump). by left. }
  rewrite (bind_Ok _ _ _ _ _ Hdump). simpl. right. exists stored.
  rewrite Hself2, Hdisk2. split; [done|].
  destruct (Hok3 stored s2 eq_refl) as (_ & Hk3 & _). by rewrite Hk3.
Qed.

Lemma keeps_save : keeps (bot_free bot_id) (save env).
Proof.
  intros s [Hu Hd]. destruct (save_writes_ledger_keys s) as [Hself Hdisk].
  unfold bot_free. rewrite Hself. split; [done|].
  destruct Hdisk as [-> | (stored & -> & Hk)]; [done|].
  intros f st Hf. destruct (decide (f = _db_filename (self s))) as [->|Hne].
  - rewrite lookup_insert_eq in Hf. injection Hf as <-. by rewrite Hk.
  - rewrite lookup_insert_ne in Hf by done. by eapply Hd.
Qed.

Lemma keeps_load : keeps (bot_free bot_id) load.
Proof.
  intros s [Hu Hd]. unfold load, db_load, bind, gets, modify.
  rewrite restore_run. simpl. unfold bot_free. simpl. split; [|done].
  rewrite fst_zip by (rewrite length_fmap, length_seq; lia).
  destruct (disk s !! _db_filename (self s)) as [stored|] eqn:Hf; simpl.
  - by eapply Hd.
  - apply not_elem_of_nil.
Qed.

Lemma keeps__update_user user_id :
  keeps (bot_free bot_id) (_update_user env user_id).
Proof.
  intros s Hs. eapply bot_free_enrols; [apply enrols__update_user | done].
Qed.

Lemma keeps__update_all_users : keeps (bot_free bot_id) (_update_all_users env).
Proof.
  intros s Hs. eapply bot_free_enrols; [apply enrols__update_all_users | done].
Qed.

Lemma keeps__handle_command event command args :
  keeps (bot_free bot_id) (_handle_command env event command args).
Proof.
  unfold _handle_command. destruct (_ || _).
  { apply keeps_bind; [apply keeps_of_store, always_event_getitem|].
    intros channel. apply keeps_of_always, always_api_send_message. }
  destruct (String.eqb (Str.lower command) "scores").
  { apply keeps_bind; [apply keeps_of_store, always_gets|]. intros users.
    apply keeps_bind; [apply keeps_of_store, always_scores_loop|].
    intros scores.
    apply keeps_bind; [apply keeps_of_store, always_event_getitem|].
    intros channel. apply keeps_of_always, always_api_send_message. }
  destruct (String.eqb (Str.lower command) "save"); [apply keeps_save|].
  destruct (String.eqb (Str.lower command) "load").
  { apply keeps_bind; [apply keeps_load|]. intros _.
    apply keeps__update_all_users. }
  apply keeps_of_store, always_ret.
Qed.

Lemma keeps__handle_event event :
  keeps (bot_free bot_id) (_handle_event env event).
Proof.
  unfold _handle_event.
  apply keeps_bind; [apply keeps_of_store, always_event_getitem|].
  intros type. destruct (String.eqb type "message").
  { unfold _handle_message.
    apply keeps_bind; [apply keeps_of_store, always_event_getitem|].
    intros text.
    apply keeps_bind; [apply keeps_of_store, always_gets|]. intros id.
    destruct (Str.startswith _ _); [|apply keeps_of_store, always_ret].
    destruct (1 <? _); [|apply keeps_of_store, always_ret].
    destruct (_ !! 1); [apply keeps__handle_command|].
    apply keeps_of_store, always_raise. }
  destruct (String.eqb type "presence_change");
    [|apply keeps_of_store, always_ret].
  unfold _handle_presence_change.
  apply keeps_bind; [apply keeps_of_store, always_event_getitem|].
  intros user_id. apply keeps__update_user.
Qed.

Lemma keeps__post_connection_init :
  keeps (bot_free bot_id) (_post_connection_init env).
Proof.
  unfold _post_connection_init.
  apply keeps_bind; [apply keeps_of_store, always_ret|]. intros self_user.
  apply keeps_bind; [by intros s [Hu Hd]|]. intros _.
  apply keeps_bind; [apply keeps_of_store, always_gets|]. intros name.
  apply keeps_bind.
  { intros s [Hu Hd]. unfold api_get_channel.
    by destruct (channels_list env (tick s) name). }
  intros channel. apply keeps_bind; [by intros s [Hu Hd]|]. intros _.
  apply keeps__update_all_users.
Qed.

Lemma keeps_run_op o : keeps (bot_free bot_id) (run_op env o).
Proof.
  destruct o; simpl.
  - apply keeps__post_connection_init.
  - apply keeps__handle_event.
  - apply keeps__update_user.
  - apply keeps__update_all_users.
  - apply keeps_save.
  - apply keeps_load.
Qed.

Lemma bot_free___init__ channel filename files now :
  (forall f stored, files !! f = Some stored -> bot_id ∉ stored.*1) ->
  bot_free bot_id (__init__ channel filename files now).
Proof.
  intros Hd. unfold __init__. apply keeps_load. split; [|done].
  apply not_elem_of_nil.
Qed.

Lemma reachable_bot_free s : reachable env s -> bot_free bot_id s.
Proof.
  induction 1 as [channel filename now | s channel filename _ IH | s o _ IH].
  - apply bot_free___init__. intros f stored Hf.
    by rewrite lookup_empty in Hf.
  - apply bot_free___init__. by destruct IH.
  - by apply keeps_run_op.
Qed.

End BotFree.

(** X4. An identity that Slack flags as a bot each time its profile is
    fetched is in no reachable ledger: neither in the ledger of the bot nor
    in a ledger that was saved to a file, whatever operations and restarts
    led there. *)
Theorem bots_stay_out (env : Env) (bot_id : string) (s : State) :
  (forall t info, users_info env t bot_id = Some info -> is_bot info = true) ->
  reachable env s ->
  Dict.get bot_id (_users (self s)) = None /\
  lookup_user s bot_id = None /\
  forall f stored, disk s !! f = Some stored -> Dict.get bot_id stored = None.
Proof.
  intros Hflag Hreach.
  destruct (reachable_bot_free env bot_id Hflag s Hreach) as [Hu Hd].
  assert (Dict.get bot_id (_users (self s)) = None) as Hget
      by (by apply DictFacts.get_None).
  split; [exact Hget|]. split.
  - unfold lookup_user. by rewrite Hget.
  - intros f stored Hf. apply DictFacts.get_None. by eapply Hd.
Qed.

Lemma bots_stay_out_witness :
  lookup_user (state_of (save Scenario.env0 Scenario.online)) "B1" = None.
Proof.
  refine (proj1 (proj2 (bots_stay_out Scenario.env0 "B1" _ _ _))).
  - intros t info [= <-]. reflexivity.
  - exact (reach_op Scenario.env0 Scenario.online OpSave
             (reach_op Scenario.env0 Scenario.connected (OpUpdateUser "U1")
                (reach_op Scenario.env0 Scenario.started OpConnect
                   (reach_start Scenario.env0 "general" "idlerpg.db" 0)))).
Defined.

(** ** The commands that post *)

(** X5. The commands [hello] and [hi], in any case: one fixed greeting is
    posted to the channel of the message and nothing else changes.  When
    Slack rejects the message the command raises and nothing is posted;
    when the event has no channel it raises [KeyError] before anything
    is sent. *)
Theorem greeting_posted (env : Env) (event : Event) (command : string)
        (args : list string) (s : State) :
  Str.lower command = "hello" \/ Str.lower command = "hi" ->
  match event !! "channel" with
  | Some channel =>
      if chat_postMessage env (tick s) channel "Hello from Python! :tada:"
      then _handle_command env event command args s
           = Ok tt (mkState (self s) (heap s) (disk s)
                            (sent s ++ [(channel, "Hello from Python! :tada:")])
                            (S (tick s)))
      else _handle_command env event command args s
           = Raise RuntimeError (next_tick s)
  | None =>
      _handle_command env event command args s = Raise (KeyError "channel") s
  end.
Proof.
  intros Hcmd. unfold _handle_command.
  assert (String.eqb (Str.lower command) "hello"
          || String.eqb (Str.lower command) "hi" = true) as ->.
  { destruct Hcmd as [-> | ->]; reflexivity. }
  unfold event_getitem, _hello, bind.
  destruct (event !! "channel") as [channel|]; simpl; [|done].
  unfold api_send_message.
  by destruct (chat_postMessage env (tick s) channel _).
Qed.

Lemma greeting_posted_witness :
  _handle_command Scenario.env0 (Scenario.message "<@BOT> Hi") "Hi" []
                  Scenario.idle
  = Ok tt (mkState (self Scenario.idle) (heap Scenario.idle)
                   (disk Scenario.idle)
                   [("C1", "Hello from Python! :tada:")] 1).
Proof.
  exact (greeting_posted Scenario.env0 (Scenario.message "<@BOT> Hi") "Hi" []
                         Scenario.idle (or_intror eq_refl)).
Defined.

(** X6. The command [scores] only reads: whether it returns or raises, the
    bot, the ledger, every record and the files are what they were, and at
    most one message has been posted, to the channel of the event. *)
Theorem scores_only_reads (env : Env) (event : Event) (command : string)
        (args : list string) (s : State) :
  Str.lower command = "scores" ->
  let s' := state_of (_handle_command env event command args s) in
  self s' = self s /\ heap s' = heap s /\ disk s' = disk s /\
  (sent s' = sent s \/
   exists channel text,
     event !! "channel" = Some channel /\
     sent s' = sent s ++ [(channel, text)]).
Proof.
  intros Hcmd. unfold _handle_command. rewrite Hcmd. simpl.
  rewrite (bind_Ok _ _ s (_users (self s)) s) by done.
  destruct (always_scores_loop env (_users (self s)) [] s)
    as (H1 & H2 & H3 & H4).
  destruct (scores_loop env (_users (self s)) [] s) as [scores s1|e s1]
    eqn:Hloop; simpl in *.
  2:{ rewrite (bind_Raise _ _ _ _ _ Hloop). simpl. auto. }
  rewrite (bind_Ok _ _ _ _ _ Hloop). unfold event_getitem.
  destruct (event !! "channel") as [channel|] eqn:Hch.
  2:{ simpl. auto. }
  rewrite (bind_Ok _ _ s1 channel s1) by done.
  unfold api_send_message.
  destruct (chat_postMessage env (tick s1) channel _); simpl.
  - split; [done|]. split; [done|]. split; [done|]. right.
    eexists _, _. split; [done|]. by rewrite H4.
  - auto.
Qed.

Lemma scores_only_reads_witness :
  let s' := state_of (_handle_command Scenario.env0
                        (Scenario.message "<@BOT> scores") "SCORES" []
                        Scenario.online) in
  self s' = self Scenario.online /\ heap s' = heap Scenario.online /\
  disk s' = disk Scenario.online /\
  (sent s' = sent Scenario.online \/
   exists channel text,
     Scenario.message "<@BOT> scores" !! "channel" = Some channel /\
     sent s' = sent Scenario.online ++ [(channel, text)]).
Proof.
  exact (scores_only_reads Scenario.env0 (Scenario.message "<@BOT> scores")
                           "SCORES" [] Scenario.online eq_refl).
Defined.

(** X11. The name shown for a user is the first of display name, real name
    and e-mail address that is not empty, and the empty string when all
    three are empty. *)
Theorem shown_name_first_nonempty (p : Profile) :
  shown_name p
  = default "" (head (filter (fun x => x <> "")
                             [display_name p; real_name p; email p])).
Proof.
  unfold shown_name.
  destruct (display_name p) as [|c1 r1], (real_name p) as [|c2 r2],
    (email p) as [|c3 r3]; reflexivity.
Qed.

(** ** Saving and loading again *)

Section RoundTrip.
Variable env : Env.




End RoundTrip.



(** ** Connecting and the event loop *)

Section Connection.
Variable env : Env.
Variable rtm : Rtm.

Lemma preserves_handle_each events :
  preserves env (evolves env) (handle_each env events).
Proof.
  induction events as [|event rest IH]; simpl.
  - apply (preserves_weaken env (step env)); [apply evolves_of_step|].
    apply preserves_ret.
  - apply preserves_bind;
      [apply evolves_trans | apply preserves__handle_event | intros _; exact IH].
Qed.

Lemma preserves_api_read : preserves env (evolves env) (api_read rtm).
Proof.
  apply (preserves_weaken env (step env)); [apply evolves_of_step|].
  apply preserves_outside. intros s. simpl. auto.
Qed.

Lemma preserves_poll rounds : preserves env (evolves env) (poll env rtm rounds).
Proof.
  induction rounds as [|n IH]; simpl.
  - apply (preserves_weaken env (step env)); [apply evolves_of_step|].
    apply preserves_ret.
  - apply preserves_bind; [apply evolves_trans | apply preserves_api_read |].
    intros events.
    apply preserves_bind;
      [apply evolves_trans | apply preserves_handle_each | intros _; exact IH].
Qed.

Lemma preserves_connect rounds :
  preserves env (evolves env) (connect env rtm rounds).
Proof.
  unfold connect. apply preserves_bind; [apply evolves_trans | |].
  { apply (preserves_weaken env (step env)); [apply evolves_of_step|].
    apply preserves_outside. intros s. unfold api_connect.
    destruct (rtm_connect rtm); simpl; auto. }
  intros _. apply preserves_bind; [apply evolves_trans | |].
  { apply (preserves_weaken env (step env)); [apply evolves_of_step|].
    apply preserves__post_connection_init. }
  intros _. apply preserves_poll.
Qed.

Lemma keeps_connect bot_id rounds :
  (forall t info, users_info env t bot_id = Some info -> is_bot info = true) ->
  keeps (bot_free bot_id) (connect env rtm rounds).
Proof.
  intros Hflag.
  assert (forall events, keeps (bot_free bot_id) (handle_each env events))
    as Heach.
  { induction events as [|event rest IH]; simpl.
    - by intros s.
    - apply keeps_bind; [by apply keeps__handle_event | intros _; exact IH]. }
  assert (forall n, keeps (bot_free bot_id) (poll env rtm n)) as Hpoll.
  { induction n as [|n IH]; simpl.
    - by intros s.
    - apply keeps_bind; [by intros s [Hu Hd]|]. intros events.
      apply keeps_bind; [apply Heach | intros _; exact IH]. }
  unfold connect. apply keeps_bind.
  { intros s Hs. unfold api_connect. by destruct (rtm_connect rtm). }
  intros _. apply keeps_bind; [by apply keeps__post_connection_init|].
  intros _. apply Hpoll.
Qed.

Lemma handle_each_app pre post s s1 :
  handle_each env pre s = Ok tt s1 ->
  handle_each env (pre ++ post) s = handle_each env post s1.
Proof.
  revert s. induction pre as [|event pre IH]; intros s Hrun; simpl in *.
  - by injection Hrun as ->.
  - unfold bind in *.
    destruct (_handle_event env event s) as [[] s0|e s0]; [|done].
    by apply IH.
Qed.

End Connection.

(** X8. [_post_connection_init] sets the name and the id of the bot from
    the login data before anything can fail.  When the channel is not found
    it raises with the ledger, the records and the files untouched; when it
    is found, its id is remembered, and the sync that follows only appends
    users to the ledger. *)
Theorem connection_init_sets_identity (env : Env) (s : State) :
  let s' := state_of (_post_connection_init env s) in
  _id (self s') = Some (fst (login_self env)) /\
  _name (self s') = Some (snd (login_self env)) /\
  (channels_list env (tick s) (_rpg_channel_name (self s)) = None ->
   exists s1,
     _post_connection_init env s = Raise RuntimeError s1 /\
     _users (self s1) = _users (self s) /\ heap s1 = heap s /\
     disk s1 = disk s /\ sent s1 = sent s) /\
  (forall c,
      channels_list env (tick s) (_rpg_channel_name (self s)) = Some c ->
      _rpg_channel_id (self s') = Some c /\
      exists new, (_users (self s')).*1 = (_users (self s)).*1 ++ new).
Proof.
  cbv zeta. unfold _post_connection_init, api_get_self.
  rewrite (bind_Ok _ _ s (login_self env) s) by done.
  set (s1 := set_self (bot_set_identity (snd (login_self env))
                                        (fst (login_self env)) (self s)) s).
  rewrite (bind_Ok _ _ s tt s1) by done.
  rewrite (bind_Ok _ _ s1 (_rpg_channel_name (self s)) s1) by done.
  destruct (channels_list env (tick s) (_rpg_channel_name (self s)))
    as [c|] eqn:Hc.
  - assert (api_get_channel env (_rpg_channel_name (self s)) s1
            = Ok c (next_tick s1)) as Hapi.
    { unfold api_get_channel. simpl. by rewrite Hc. }
    rewrite (bind_Ok _ _ _ _ _ Hapi).
    set (s2 := set_self (bot_set_channel c (self (next_tick s1)))
                        (next_tick s1)).
    rewrite (bind_Ok _ _ (next_tick s1) tt s2) by done.
    destruct (enrols__update_all_users env s2)
      as (_ & (Hname & Hid & Hch & _) & new & Hk & _).
    split; [by rewrite Hid|]. split; [by rewrite Hname|].
    split; [done|]. intros c' [= <-]. split; [by rewrite Hch|].
    exists new. by rewrite Hk.
  - assert (api_get_channel env (_rpg_channel_name (self s)) s1
            = Raise RuntimeError (next_tick s1)) as Hapi.
    { unfold api_get_channel. simpl. by rewrite Hc. }
    rewrite (bind_Raise _ _ _ _ _ Hapi).
    split; [done|]. split; [done|]. split; [|done].
    intros _. eexists. split; [done|]. done.
Qed.

Lemma connection_init_sets_identity_witness :
  _rpg_channel_id (self Scenario.connected) = Some "C1" /\
  exists new,
    (_users (self Scenario.connected)).*1
    = (_users (self Scenario.started)).*1 ++ new.
Proof.
  exact (proj2 (proj2 (proj2 (connection_init_sets_identity
                                Scenario.env0 Scenario.started)))
               "C1" eq_refl).
Defined.

(** X9. However many turns the event loop of [connect] makes and whatever
    the batches of events, from a reachable state and whether it raises or
    not: every key of the ledger leads to a record, which has a session
    start exactly when it is active, and an identity always flagged as a
    bot is not in the ledger. *)
Theorem event_loop_keeps_ledger_sound (env : Env) (rtm : Rtm) (s : State)
        (rounds : nat) :
  reachable env s ->
  let s' := state_of (connect env rtm rounds s) in
  (forall user_id l,
      Dict.get user_id (_users (self s')) = Some l ->
      exists u, heap s' !! l = Some u /\
                (is_Some (first_seen u) <-> active u = true)) /\
  (forall bot_id,
      (forall t info, users_info env t bot_id = Some info ->
                      is_bot info = true) ->
      Dict.get bot_id (_users (self s')) = None).
Proof.
  intros Hreach s'. pose proof (reachable_inv env s Hreach) as Hs.
  destruct (preserves_connect env rtm rounds s Hs) as [Hi _].
  split.
  - intros user_id l. by apply (inv_ledger env).
  - intros bot_id Hflag. apply DictFacts.get_None.
    apply (keeps_connect env rtm bot_id rounds Hflag s).
    by apply (reachable_bot_free env).
Qed.

Lemma event_loop_keeps_ledger_sound_witness :
  let s' := state_of (connect Scenario.env0
                        (mkRtm true (fun _ => [Scenario.message "<@BOT> save"]))
                        2 Scenario.started) in
  Dict.get "B1" (_users (self s')) = None.
Proof.
  refine (proj2 (event_loop_keeps_ledger_sound
                   Scenario.env0 _ Scenario.started 2 _) "B1" _).
  - exact (reach_start Scenario.env0 "general" "idlerpg.db" 0).
  - intros t info [= <-]. reflexivity.
Defined.

(** X10. The loop has no handler for exceptions.  When the connection is
    refused, [connect] raises before it does anything.  When an event of a
    batch raises, the events after it are not handled, and the exception
    leaves the loop with the state of that moment: no later turn runs. *)
Theorem loop_stops_at_first_exception (env : Env) (rtm : Rtm) :
  (rtm_connect rtm = false ->
   forall rounds s, connect env rtm rounds s = Raise RuntimeError s) /\
  (forall pre event post s s1 e s2,
      handle_each env pre s = Ok tt s1 ->
      _handle_event env event s1 = Raise e s2 ->
      handle_each env (pre ++ event :: post) s = Raise e s2) /\
  (forall rounds s e s2,
      handle_each env (rtm_read rtm (tick s)) (next_tick s) = Raise e s2 ->
      poll env rtm (S rounds) s = Raise e s2).
Proof.
  split; [|split].
  - intros Hc rounds s. unfold connect, api_connect, bind. by rewrite Hc.
  - intros pre event post s s1 e s2 Hpre Hev.
    rewrite (handle_each_app env _ _ _ _ Hpre). simpl.
    by rewrite (bind_Raise _ _ _ _ _ Hev).
  - intros rounds s e s2 Hrun. simpl.
    rewrite (bind_Ok _ _ s (rtm_read rtm (tick s)) (next_tick s)) by done.
    by rewrite (bind_Raise _ _ _ _ _ Hrun).
Qed.

Lemma loop_stops_at_first_exception_witness :
  handle_each Scenario.env0
              ([Scenario.message "hello"] ++
               (<["type" := "message"]> ∅) :: [Scenario.message "<@BOT> hi"])
              Scenario.connected
  = Raise (KeyError "text") Scenario.connected.
Proof.
  refine (proj1 (proj2 (loop_stops_at_first_exception
                          Scenario.env0 (mkRtm true (fun _ => []))))
                _ _ _ _ Scenario.connected _ _ _ _).
  - vm_compute. reflexivity.
  - vm_compute. reflexivity.
Defined.

(** ** The client of the legacy script *)

Section LegacyClient.
Variable web : Legacy.Web.

Lemma error_template_short e :
  str_format Legacy.error_template [e] = None.
Proof. vm_compute. reflexivity. Qed.

Lemma not_found_message name :
  exists message, str_format "Channel {} not found" [name] = Some message.
Proof. eexists. vm_compute. reflexivity. Qed.

Lemma sc_api_call_failed method kwargs s :
  Legacy.ok (Legacy.api_call web (tick s) method kwargs) = false ->
  Legacy.sc_api_call web method kwargs s
  = Ok (Legacy.api_call web (tick s) method kwargs) (next_tick s).
Proof.
  intros Hok. unfold Legacy.sc_api_call. rewrite Hok.
  by rewrite andb_false_r.
Qed.

Lemma safe_web_call_ok method kwargs s :
  Legacy.ok (Legacy.api_call web (tick s) method kwargs) = true ->
  Legacy._safe_web_call web method kwargs s
  = Legacy.sc_api_call web method kwargs s.
Proof.
  intros Hok. unfold Legacy._safe_web_call, bind.
  unfold Legacy.sc_api_call at 1. simpl. rewrite Hok. simpl.
  unfold Legacy.sc_api_call. by rewrite Hok.
Qed.

Lemma safe_web_call_failed method kwargs s :
  Legacy.ok (Legacy.api_call web (tick s) method kwargs) = false ->
  Legacy._safe_web_call web method kwargs s
  = Raise (match Legacy.error (Legacy.api_call web (tick s) method kwargs) with
           | Some _ => IndexError
           | None => KeyError "error"
           end) (next_tick s).
Proof.
  intros Hok. unfold Legacy._safe_web_call.
  rewrite (bind_Ok _ _ _ _ _ (sc_api_call_failed _ _ _ Hok)). rewrite Hok.
  cbn [negb].
  destruct (Legacy.error _) as [e|].
  - rewrite (bind_Ok _ _ (next_tick s) e (next_tick s)) by done.
    by rewrite error_template_short.
  - done.
Qed.

Lemma find_channel_run name pre c post s :
  Forall (fun c' => Legacy.channel_name c' <> name) pre ->
  Legacy.channel_name c = name ->
  Legacy.find_channel name (pre ++ c :: post) s = Ok c s.
Proof.
  intros Hpre Hc. induction Hpre as [|c' pre Hc' _ IH]; simpl.
  - apply String.eqb_eq in Hc. by rewrite Hc.
  - apply String.eqb_neq in Hc'. by rewrite Hc'.
Qed.

Lemma find_channel_none name cs s :
  Forall (fun c' => Legacy.channel_name c' <> name) cs ->
  Legacy.find_channel name cs s = Raise RuntimeError s.
Proof.
  induction 1 as [|c' cs Hc' _ IH]; simpl.
  - destruct (not_found_message name) as [m Hm].
    change (str_format "Channel {} not found" [name]) with
      (str_format "Channel {} not found" [name]) in Hm.
    by destruct (str_format "Channel {} not found" [name]).
  - apply String.eqb_neq in Hc'. by rewrite Hc'.
Qed.

Lemma find_channel_found name cs c s s' :
  Legacy.find_channel name cs s = Ok c s' ->
  Legacy.channel_name c = name /\ c ∈ cs /\ s' = s.
Proof.
  induction cs as [|c' cs IH]; simpl.
  - by destruct (str_format "Channel {} not found" [name]).
  - destruct (String.eqb (Legacy.channel_name c') name) eqn:E.
    + intros [= <- <-]. apply String.eqb_eq in E. split; [done|].
      split; [left | done].
    + intros H. destruct (IH H) as (? & ? & ?). split; [done|].
      split; [by right | done].
Qed.

End LegacyClient.

(** X12. [_safe_web_call] of the legacy client gives back the response of
    a call that Slack accepts.  For a call that Slack rejects it never
    raises the [RuntimeError] it builds: the message has two fields and one
    argument, so formatting it raises [IndexError]; and a rejected response
    without an [error] key raises [KeyError]. *)
Theorem safe_web_call_outcomes (web : Legacy.Web) (method : string)
        (kwargs : list (string * string)) (s : State) :
  let response := Legacy.api_call web (tick s) method kwargs in
  (Legacy.ok response = true ->
   exists s', Legacy._safe_web_call web method kwargs s = Ok response s' /\
              tick s' = S (tick s) /\ self s' = self s /\ heap s' = heap s) /\
  (Legacy.ok response = false ->
   forall e, Legacy.error response = Some e ->
   Legacy._safe_web_call web method kwargs s = Raise IndexError (next_tick s)) /\
  (Legacy.ok response = false -> Legacy.error response = None ->
   Legacy._safe_web_call web method kwargs s
   = Raise (KeyError "error") (next_tick s)) /\
  (forall s', Legacy._safe_web_call web method kwargs s
              <> Raise RuntimeError s').
Proof.
  intros response. split; [|split; [|split]].
  - intros Hok. rewrite (safe_web_call_ok web _ _ _ Hok).
    unfold Legacy.sc_api_call. eexists. split; [done|].
    by destruct (_ && _).
  - intros Hok e He. rewrite (safe_web_call_failed web _ _ _ Hok).
    fold response. by rewrite He.
  - intros Hok He. rewrite (safe_web_call_failed web _ _ _ Hok).
    fold response. by rewrite He.
  - intros s' Hrun. destruct (Legacy.ok response) eqn:Hok.
    + rewrite (safe_web_call_ok web _ _ _ Hok) in Hrun. done.
    + rewrite (safe_web_call_failed web _ _ _ Hok) in Hrun.
      fold response in Hrun. by destruct (Legacy.error response).
Qed.

(** X13. [get_channel] of the legacy client, when the list call succeeds
    and has channels: it returns the first channel of the list with the
    name asked for, and raises [RuntimeError] exactly when no channel has
    that name; a channel it returns bears the name and is in the list. *)
Theorem get_channel_first_match (web : Legacy.Web) (name : string)
        (cs : list Legacy.Channel) (s : State) :
  Legacy.ok (Legacy.api_call web (tick s) "channels.list" []) = true ->
  Legacy.channels (Legacy.api_call web (tick s) "channels.list" [])
  = Some cs ->
  (forall pre c post,
      cs = pre ++ c :: post ->
      Forall (fun c' => Legacy.channel_name c' <> name) pre ->
      Legacy.channel_name c = name ->
      Legacy.get_channel web name s = Ok c (next_tick s)) /\
  (Forall (fun c' => Legacy.channel_name c' <> name) cs <->
   Legacy.get_channel web name s = Raise RuntimeError (next_tick s)) /\
  (forall c s', Legacy.get_channel web name s = Ok c s' ->
                Legacy.channel_name c = name /\ c ∈ cs).
Proof.
  intros Hok Hcs.
  assert (Legacy.get_channel web name s
          = Legacy.find_channel name cs (next_tick s)) as Hrun.
  { assert (Legacy._safe_web_call web "channels.list" [] s
            = Ok (Legacy.api_call web (tick s) "channels.list" [])
                 (next_tick s)) as Hcall.
    { by rewrite (safe_web_call_ok web _ _ _ Hok). }
    unfold Legacy.get_channel. rewrite (bind_Ok _ _ _ _ _ Hcall).
    rewrite Hcs. by rewrite (bind_Ok _ _ (next_tick s) cs (next_tick s)). }
  rewrite Hrun. split; [|split].
  - intros pre c post -> Hpre Hc. by apply find_channel_run.
  - split; [apply find_channel_none|].
    intros Hraise. apply Forall_forall. intros c Hin Hname.
    apply list_elem_of_split in Hin as (pre & post & ->).
    assert (exists pre' c' post',
               pre ++ c :: post = pre' ++ c' :: post' /\
               Forall (fun x => Legacy.channel_name x <> name) pre' /\
               Legacy.channel_name c' = name) as (pre' & c' & post' & E & F & N).
    { clear Hraise Hrun Hcs. induction pre as [|x pre IH]; simpl.
      - by exists [], c, post.
      - destruct (String.eqb (Legacy.channel_name x) name) eqn:Ex.
        + apply String.eqb_eq in Ex. by exists [], x, (pre ++ c :: post).
        + apply String.eqb_neq in Ex.
          destruct IH as (pre' & c' & post' & E & F & N).
          exists (x :: pre'), c', post'. simpl. rewrite E.
          split; [done|]. split; [by constructor | done]. }
    rewrite E in Hraise.
    by rewrite (find_channel_run name pre' c' post' _ F N) in Hraise.
  - intros c s' Hfound.
    destruct (find_channel_found name cs c _ _ Hfound) as (? & ? & _). done.
Qed.

Lemma safe_web_call_outcomes_witness :
  Legacy._safe_web_call LegacyScenario.web0 "users.list" [] Scenario.started
  = Raise IndexError (next_tick Scenario.started).
Proof.
  exact (proj1 (proj2 (safe_web_call_outcomes LegacyScenario.web0
                         "users.list" [] Scenario.started))
               eq_refl "unknown_method" eq_refl).
Defined.

Lemma get_channel_first_match_witness :
  Legacy.get_channel LegacyScenario.web0 "general" Scenario.started
  = Ok (Legacy.mkChannel "general" "C1") (next_tick Scenario.started).
Proof.
  refine (proj1 (get_channel_first_match LegacyScenario.web0 "general"
                   [Legacy.mkChannel "random" "C0";
                    Legacy.mkChannel "general" "C1"]
                   Scenario.started eq_refl eq_refl)
                [Legacy.mkChannel "random" "C0"]
                (Legacy.mkChannel "general" "C1") [] eq_refl _ eq_refl).
  repeat constructor. discriminate.
Defined.

(** ** The legacy bot next to [bot.py] *)

Ltac crunch Hget Hl :=
  repeat first
    [ rewrite Hget
    | rewrite Hl
    | rewrite list_lookup_insert_eq
        by (rewrite ?length_insert; by eapply lookup_lt_Some)
    | rewrite list_insert_insert_eq
    | progress simpl ].

Section LegacyBot.
Variable web : Legacy.Web.

Lemma agree_refl {A} (r : Res A) : agree r r.
Proof. by destruct r. Qed.

Lemma agree_of_eq {A} (r1 r2 : Res A) : r1 = r2 -> agree r1 r2.
Proof. intros ->. apply agree_refl. Qed.

Lemma agree_bind {A B} (c1 c2 : M A) (k1 k2 : A -> M B) s :
  agree (c1 s) (c2 s) ->
  (forall a s', agree (k1 a s') (k2 a s')) ->
  agree (bind c1 k1 s) (bind c2 k2 s).
Proof.
  intros Hc Hk. unfold bind.
  destruct (c1 s) as [a s1|e s1], (c2 s) as [b s2|e' s2]; simpl in Hc;
    try done.
  destruct Hc as [-> ->]. apply Hk.
Qed.

Lemma mark_online_eq id s :
  Legacy.mark_online web id s
  = set_online (Legacy.env_of web) (_users (self s)) id s.
Proof.
  unfold Legacy.mark_online, Legacy.users_getitem, set_online, getitem,
    setattr, deref, Legacy.time_time, time_time, bind, gets, modify, ret,
    raise.
  destruct (Dict.get id (_users (self s))) as [l|] eqn:Hget; [|by crunch Hget Hget].
  destruct (heap s !! l) as [u|] eqn:Hl; crunch Hget Hl; reflexivity.
Qed.

Lemma mark_offline_eq id s :
  Legacy.mark_offline web id s
  = set_offline (Legacy.env_of web) (_users (self s)) id s.
Proof.
  unfold Legacy.mark_offline, Legacy.users_getitem, set_offline, getitem,
    setattr, deref, Legacy.time_time, time_time, elapsed_since, bind, gets,
    modify, ret, raise.
  destruct (Dict.get id (_users (self s))) as [l|] eqn:Hget; [|by crunch Hget Hget].
  destruct (heap s !! l) as [u|] eqn:Hl; crunch Hget Hl; [|reflexivity].
  destruct (first_seen u) as [t0|] eqn:H0; crunch Hget Hl; reflexivity.
Qed.

End LegacyBot.

Section LegacyAgreement.
Variable web : Legacy.Web.

Lemma safe_web_call_plain method kwargs s :
  String.eqb method "chat.postMessage" = false ->
  Legacy._safe_web_call web method kwargs s
  = if Legacy.ok (Legacy.api_call web (tick s) method kwargs)
    then Ok (Legacy.api_call web (tick s) method kwargs) (next_tick s)
    else Raise (match Legacy.error
                        (Legacy.api_call web (tick s) method kwargs) with
                | Some _ => IndexError
                | None => KeyError "error"
                end) (next_tick s).
Proof.
  intros Hm. destruct (Legacy.ok _) eqn:Hok.
  - rewrite (safe_web_call_ok web _ _ _ Hok). unfold Legacy.sc_api_call.
    by rewrite Hm.
  - by apply safe_web_call_failed.
Qed.

Lemma get_user_info_agree id s :
  agree (Legacy.get_user_info web id s)
        (api_get_user_info (Legacy.env_of web) id s).
Proof.
  unfold Legacy.get_user_info, api_get_user_info, bind.
  rewrite safe_web_call_plain by done. simpl.
  destruct (Legacy.ok _); simpl; [|done].
  by destruct (Legacy.user _).
Qed.

Lemma is_user_active_agree id s :
  agree (Legacy.is_user_active web id s)
        (api_is_user_active (Legacy.env_of web) id s).
Proof.
  unfold Legacy.is_user_active, api_is_user_active, bind.
  rewrite safe_web_call_plain by done. simpl.
  destruct (Legacy.ok _); simpl; [|done].
  by destruct (Legacy.presence _).
Qed.

Lemma send_message_agree channel message s :
  agree (Legacy.send_message web channel message s)
        (api_send_message (Legacy.env_of web) channel message s).
Proof.
  unfold Legacy.send_message, api_send_message. simpl.
  destruct (Legacy.ok (Legacy.api_call web (tick s) "chat.postMessage"
                         [("channel", channel); ("text", message)])) eqn:Hok.
  - rewrite (bind_Ok _ _ _ _ _
               (eq_trans (safe_web_call_ok web _ _ _ Hok) eq_refl)).
    unfold Legacy.sc_api_call. rewrite Hok. simpl. done.
  - rewrite (bind_Raise _ _ _ _ _ (safe_web_call_failed web _ _ _ Hok)).
    done.
Qed.

Lemma presence_update_agree id s :
  agree (Legacy.presence_update web id s)
        (update_presence (Legacy.env_of web) id s).
Proof.
  unfold Legacy.presence_update, update_presence.
  apply agree_bind; [apply is_user_active_agree|].
  intros is_active s'. apply agree_of_eq.
  unfold Legacy.users_getitem, bind, gets, getitem, deref.
  destruct (Dict.get id (_users (self s'))) as [l|]; simpl; [|done].
  destruct (heap s' !! l) as [u|]; simpl; [|done].
  destruct is_active, (active u); simpl;
    by rewrite ?mark_online_eq, ?mark_offline_eq.
Qed.

Lemma user_update_agree id s :
  agree (Legacy._user_update web id s)
        (_update_user (Legacy.env_of web) id s).
Proof.
  unfold Legacy._user_update, _update_user.
  apply agree_bind; [apply agree_refl|]. intros users s1.
  destruct (negb (Dict.mem id users)); [|apply presence_update_agree].
  apply agree_bind; [apply get_user_info_agree|]. intros user s2.
  destruct (is_bot user); [apply agree_refl|].
  apply agree_bind; [apply agree_refl|]. intros l s3.
  apply agree_bind; [apply agree_refl|]. intros _ s4.
  apply presence_update_agree.
Qed.

Lemma scores_lines_eq items : forall scores s,
  Legacy.scores_lines web items scores s
  = scores_loop (Legacy.env_of web) items scores s.
Proof.
  induction items as [|[user_id user] rest IH]; intros scores s; simpl;
    [done|].
  unfold bind. destruct (deref user s) as [u s1|e s1]; [|done].
  change (Legacy.shown_total web u s1)
    with (live_total (Legacy.env_of web) u s1).
  destruct (live_total (Legacy.env_of web) u s1) as [n s2|e s2]; [|done].
  by rewrite IH.
Qed.

Lemma handle_command_agree event command args s :
  String.eqb (Str.lower command) "save"
  || String.eqb (Str.lower command) "load" = false ->
  agree (Legacy._handle_command web event command args s)
        (_handle_command (Legacy.env_of web) event command args s).
Proof.
  intros Hcmd. apply orb_false_iff in Hcmd as [Hsave Hload].
  unfold Legacy._handle_command, _handle_command.
  destruct (_ || _).
  { apply agree_bind; [apply agree_refl|]. intros channel s1.
    apply send_message_agree. }
  destruct (String.eqb (Str.lower command) "scores").
  { apply agree_bind; [apply agree_refl|]. intros users s1.
    apply agree_bind; [apply agree_of_eq, scores_lines_eq|].
    intros scores s2.
    apply agree_bind; [apply agree_refl|]. intros channel s3.
    apply send_message_agree. }
  rewrite Hsave, Hload. apply agree_refl.
Qed.

End LegacyAgreement.

(** X14. The bot of the legacy script and the bot of [bot.py], over the
    same Slack answers, do the same thing: a presence update leaves the
    same state in both and both return or both raise; and so does the
    handling of any event, except for the commands [save] and [load], which
    only [bot.py] knows and the legacy bot ignores. *)
Theorem legacy_bot_agrees (web : Legacy.Web) (s : State) :
  (forall id,
      agree (Legacy._user_update web id s)
            (_update_user (Legacy.env_of web) id s)) /\
  (forall event,
      (forall text command,
          event !! "text" = Some text ->
          Str.split text !! 1 = Some command ->
          String.eqb (Str.lower command) "save"
          || String.eqb (Str.lower command) "load" = false) ->
      agree (Legacy._handle_event web event s)
            (_handle_event (Legacy.env_of web) event s)) /\
  (forall event command args,
      String.eqb (Str.lower command) "save"
      || String.eqb (Str.lower command) "load" = true ->
      Legacy._handle_command web event command args s = Ok tt s).
Proof.
  split; [|split].
  - intros id. apply user_update_agree.
  - intros event Hcmd. unfold Legacy._handle_event, _handle_event.
    apply agree_bind; [apply agree_refl|]. intros type s1.
    destruct (String.eqb type "message").
    + unfold Legacy._handle_message, _handle_message.
      destruct (event !! "text") as [text|] eqn:Ht.
      2:{ unfold event_getitem, bind. rewrite Ht. done. }
      assert (event_getitem event "text" s1 = Ok text s1) as Hg.
      { unfold event_getitem. by rewrite Ht. }
      rewrite !(bind_Ok _ _ _ _ _ Hg).
      rewrite !(bind_Ok _ _ s1 (_id (self s1)) s1) by done.
      destruct (Str.startswith _ _); [|done].
      destruct (1 <? _); [|done].
      destruct (Str.split text !! 1) as [command|] eqn:Hc; [|done].
      apply handle_command_agree. by eapply Hcmd.
    + destruct (String.eqb type "presence_change"); [|done].
      unfold Legacy._handle_presence_change, _handle_presence_change.
      apply agree_bind; [apply agree_refl|]. intros user_id s2.
      apply user_update_agree.
  - intros event command args Hcmd. unfold Legacy._handle_command.
    apply orb_true_iff in Hcmd.
    assert (Str.lower command = "save" \/ Str.lower command = "load") as Hc.
    { destruct Hcmd as [H|H]; apply String.eqb_eq in H; auto. }
    by destruct Hc as [-> | ->].
Qed.

Lemma legacy_bot_agrees_witness :
  agree (Legacy._handle_event LegacyScenario.web0
                              (Scenario.message "<@BOT> scores")
                              Scenario.online)
        (_handle_event (Legacy.env_of LegacyScenario.web0)
                       (Scenario.message "<@BOT> scores") Scenario.online) /\
  Legacy._handle_command LegacyScenario.web0 (Scenario.message "<@BOT> save")
                         "save" [] Scenario.online
  = Ok tt Scenario.online.
Proof.
  destruct (legacy_bot_agrees LegacyScenario.web0 Scenario.online)
    as (_ & Hev & Hsave).
  split.
  - apply Hev. intros text command [= <-] [= <-]. reflexivity.
  - apply Hsave. reflexivity.
Defined.
